(** * i-repairadmin: live-list views of the admin dashboard

    A shallow embedding of the three dashboard pages
    ([src/pages/repairs.tsx], the appointments page and
    [src/pages/freelance.tsx]): the denormalization resolver
    [fetchUserAndTechnicianDetails], the subscription callbacks, the
    client-side filters and the soft-delete action, with the properties
    the specification states about them.

    Conventions.
    - A JavaScript string is a [string]; [toLowerCase] acts on the ASCII
      letters.
    - A leaf field that may be missing is an [option string]; [None] is
      JavaScript's [undefined].  The results of [||] and [&&] chains are
      JavaScript values ([value]) and keep their truthiness.
    - A Firestore document of the [technicians] collection, which the
      freelance page treats as an open record ([[key: string]: any]), is a
      [gmap string value].
    - Asynchronous code is a transition system: an event is the delivery of
      a snapshot, the completion of an awaited promise or a user action. *)

From Stdlib Require Import ZArith Ascii String DecimalString.
From stdpp Require Import base option list gmap strings.

Local Open Scope string_scope.
Local Open Scope list_scope.

(** ** JavaScript values and operators *)

Module JS.

Inductive value : Type :=
| VUndef
| VNull
| VBool (b : bool)
| VNum (n : Z)
| VStr (s : string)
| VObject (repr : string).   (* an array or nested object; never inspected *)

#[global] Instance value_eq_dec : EqDecision value.
Proof. solve_decision. Defined.

(** [ToBoolean]: what [if (x)], [!x], [||], [&&] and [Array.filter] test. *)
Definition truthy (v : value) : bool :=
  match v with
  | VUndef | VNull => false
  | VBool b => b
  | VNum n => negb (n =? 0)%Z
  | VStr s => negb (String.eqb s "")
  | VObject _ => true
  end.

(** [a || b] and [a && b] return one of their operands. *)
Definition js_or (a b : value) : value := if truthy a then a else b.
Definition js_and (a b : value) : value := if truthy a then b else a.

(** An optional string field read as a value. *)
Definition of_str (o : option string) : value :=
  match o with Some s => VStr s | None => VUndef end.

(** [a || b] on optional strings. *)
Definition str_truthy (o : option string) : bool := truthy (of_str o).
Definition or_str (a b : option string) : option string :=
  if str_truthy a then a else b.
(** [a || 'literal']: the chain ends in a string literal. *)
Definition or_lit (a : option string) (lit : string) : string :=
  match a with
  | Some s => if String.eqb s "" then lit else s
  | None => lit
  end.

(** [a || b] on optional numbers, and [a || 0]. *)
Definition num_truthy (o : option Z) : bool :=
  match o with Some n => negb (n =? 0)%Z | None => false end.
Definition or_num (a b : option Z) : option Z :=
  if num_truthy a then a else b.
Definition or_zero (a : option Z) : Z :=
  match a with Some n => n | None => 0%Z end.

(** [String.prototype.toLowerCase], on ASCII letters: the letters A to Z
    go to a to z and every other character stays.  On text in the ASCII
    range this is what the engine does; the statements that compare
    searches of different texts are made for such text
    ([Terms.ascii_only]). *)
Definition lower_ascii (c : ascii) : ascii :=
  let n := N_of_ascii c in
  if ((65 <=? n) && (n <=? 90))%N then ascii_of_N (n + 32) else c.

Fixpoint toLowerCase (s : string) : string :=
  match s with
  | EmptyString => EmptyString
  | String c s' => String (lower_ascii c) (toLowerCase s')
  end.

(** [s.includes(t)]: [t] occurs in [s] as a contiguous substring. *)
Fixpoint includes (s t : string) : bool :=
  String.prefix t s ||
  match s with
  | EmptyString => false
  | String _ s' => includes s' t
  end.

(** [o?.toLowerCase()?.includes(t)]: [undefined] when [o] is. *)
Definition opt_includes (o : option string) (t : string) : value :=
  match o with
  | Some s => VBool (includes (toLowerCase s) t)
  | None => VUndef
  end.

(** [o && o.toLowerCase().includes(t)]. *)
Definition and_includes (o : option string) (t : string) : value :=
  js_and (of_str o) (VBool (includes (toLowerCase (default "" o)) t)).

End JS.

Notation "a <||> b" := (JS.js_or a b) (at level 50, left associativity).
Notation "a <&&> b" := (JS.js_and a b) (at level 40, left associativity).

(** What a page puts on the screen, as far as the properties below look at
    it: the loading spinner, an inline error (with or without a retry
    control), the empty-state placeholder, or the grid of cards. *)
Inductive Screen (A : Type) : Type :=
| Spinner
| ErrorState (message : string) (retry : bool)
| EmptyState
| Cards (items : list A).
Arguments Spinner {A}.
Arguments ErrorState {A} message retry.
Arguments EmptyState {A}.
Arguments Cards {A} items.

Definition shows_spinner {A} (s : Screen A) : bool :=
  match s with Spinner => true | _ => false end.
Definition shows_error_with_retry {A} (s : Screen A) : bool :=
  match s with ErrorState _ retry => retry | _ => false end.
(** The records visible on the screen. *)
Definition rendered_list {A} (s : Screen A) : list A :=
  match s with Cards items => items | _ => [] end.

(** ** Records of the appointments collection *)

(** A display snapshot of a user or technician.  [userInfo],
    [userDetails], [technicianInfo], [technicianDetails] and the documents
    of the [users] and [technicians] collections are JavaScript objects
    read through the same field names; a field an object does not carry is
    [None]. *)
Record Person : Type := mkPerson {
  username : option string;
  name : option string;
  fullName : option string;
  email : option string;
  phone : option string;
  experience : option string;
  shopName : option string;
  rating : option Z;
  averageRating : option Z;
  distance : option Z
}.

Record Diagnosis : Type := mkDiagnosis {
  category : option string;
  brand : option string;
  model : option string;
  dissue : option string;            (* diagnosisData.issue *)
  issueDescription : option string;
  diagnosis : option string
}.

(** [RepairData] / [AppointmentData].  [extra] holds the fields no modelled
    code reads ([serviceType], [scheduledDate], the timestamps, ...). *)
Record Appointment : Type := mkAppointment {
  id : string;
  userId : option string;
  technicianId : option string;
  deviceType : option string;
  issue : option string;
  status_global : option string;     (* status?.global *)
  diagnosisData : option Diagnosis;
  userInfo : option Person;
  technicianInfo : option Person;
  userDetails : option Person;
  technicianDetails : option Person;
  extra : gmap string string
}.

#[global] Instance Person_eq_dec : EqDecision Person.
Proof. solve_decision. Defined.
#[global] Instance Diagnosis_eq_dec : EqDecision Diagnosis.
Proof. solve_decision. Defined.
#[global] Instance Appointment_eq_dec : EqDecision Appointment.
Proof. solve_decision. Defined.

(** [{ ...appointment, userInfo: ui, technicianInfo: ti, userDetails: ud,
       technicianDetails: td }] *)
Definition spread4 (a : Appointment)
    (ui ti ud td : option Person) : Appointment :=
  mkAppointment (id a) (userId a) (technicianId a) (deviceType a) (issue a)
    (status_global a) (diagnosisData a) ui ti ud td (extra a).

(** [{ ...appointment, userInfo: ui, technicianInfo: ti }] *)
Definition spread2 (a : Appointment) (ui ti : option Person) : Appointment :=
  spread4 a ui ti (userDetails a) (technicianDetails a).

(** [d?.f] on an optional object. *)
Definition opt_field {A B} (f : A → option B) (o : option A) : option B :=
  o ≫= f.

(** ** The remote document store, as the resolver sees it *)

Module Store.

(** The two collections the resolver reads, and the set of documents
    whose point read fails (connection or permission error). *)
Record Db : Type := mkDb {
  users : gmap string Person;
  technicians : gmap string Person;
  unreadable : gset (string * string)
}.

(** The store together with what the code under study did to the outside:
    the point reads it issued and the lines it logged. *)
Record World : Type := mkWorld {
  db : Db;
  reads : list (string * string);
  console : list string
}.

Inductive result (A : Type) : Type :=
| Ok (a : A)
| Throw (e : string).
Arguments Ok {A} a.
Arguments Throw {A} e.

(** An [async] computation: it runs in a world and returns or throws. *)
Definition M (A : Type) : Type := World → result A * World.

Definition ret {A} (a : A) : M A := λ w, (Ok a, w).

Definition bind {A B} (m : M A) (k : A → M B) : M B :=
  λ w, match m w with
       | (Ok a, w') => k a w'
       | (Throw e, w') => (Throw e, w')
       end.

(** [try { m } catch (e) { h e }] *)
Definition try_catch {A} (m : M A) (h : string → M A) : M A :=
  λ w, match m w with
       | (Ok a, w') => (Ok a, w')
       | (Throw e, w') => h e w'
       end.

(** [console.error] / [console.warn] *)
Definition log (line : string) : M unit :=
  λ w, (Ok tt, mkWorld (db w) (reads w) (console w ++ [line])).

Definition collection (d : Db) (c : string) : gmap string Person :=
  if String.eqb c "users" then users d
  else if String.eqb c "technicians" then technicians d
  else ∅.

(** [await getDoc(doc(db, c, i))], already reduced to
    [snap.exists() ? snap.data() : null]: the read is recorded; it throws
    when the document cannot be read. *)
Definition getDoc (c i : string) : M (option Person) :=
  λ w,
    let w' := mkWorld (db w) (reads w ++ [(c, i)]) (console w) in
    if decide ((c, i) ∈ unreadable (db w))
    then (Throw "unavailable", w')
    else (Ok (collection (db w) c !! i), w').

(** [await Promise.all(xs.map(f))].  The engine starts every call of [f]
    before any read returns and interleaves the calls; each call only
    reads, and what it returns depends on the store alone, so the results
    are those of the calls run one after the other, as here.  The order
    of [reads] is that of this run, not the engine's: statements about
    the reads of a pass say which reads are issued, not in which order. *)
Fixpoint all {A B} (f : A → M B) (xs : list A) : M (list B) :=
  match xs with
  | [] => ret []
  | x :: xs' => bind (f x) (λ y, bind (all f xs') (λ ys, ret (y :: ys)))
  end.

Definition fresh (d : Db) : World := mkWorld d [] [].

End Store.

Notation "x <~ m ;; k" := (Store.bind m (λ x, k))
  (at level 100, m at next level, right associativity,
   format "'[v' x  <~  m  ;;  '/' k ']'").

(** ** The repairs page ([src/pages/repairs.tsx]) *)

Module Repairs.
Import JS Store.

(** [fetchUserAndTechnicianDetails], lines 107-166, in its three parts. *)

(** Fetch user details if not present (lines 112-122). *)
Definition readUser (appointment : Appointment) : M (option Person) :=
  if negb (bool_decide (is_Some (userInfo appointment)))
     && negb (bool_decide (is_Some (userDetails appointment)))
     && str_truthy (userId appointment)
  then try_catch
         (getDoc "users" (default "" (userId appointment)))
         (λ _, _ <~ log "Error fetching user details:" ;; ret None)
  else ret None.

(** Fetch technician details if not present (lines 124-134). *)
Definition readTechnician (appointment : Appointment) : M (option Person) :=
  if negb (bool_decide (is_Some (technicianInfo appointment)))
     && negb (bool_decide (is_Some (technicianDetails appointment)))
     && str_truthy (technicianId appointment)
  then try_catch
         (getDoc "technicians" (default "" (technicianId appointment)))
         (λ _, _ <~ log "Error fetching technician details:" ;; ret None)
  else ret None.

(** The returned object (lines 136-161).  [x || y ? {...} : undefined]
    parses as [(x || y) ? {...} : undefined]. *)
Definition merged (appointment : Appointment)
    (userData technicianData : option Person) : Appointment :=
  let u (f : Person → option string) := opt_field f userData in
  let t (f : Person → option string) := opt_field f technicianData in
  let tn (f : Person → option Z) := opt_field f technicianData in
  spread4 appointment
    (* userInfo *)
    (if bool_decide (is_Some (userInfo appointment))
        || bool_decide (is_Some userData)
     then Some (mkPerson
            (Some (or_lit (or_str (u username) (u name)) "Unknown"))
            None None
            (Some (or_lit (u email) "N/A"))
            (Some (or_lit (u phone) "N/A"))
            None None None None None)
     else None)
    (* technicianInfo *)
    (if bool_decide (is_Some (technicianInfo appointment))
        || bool_decide (is_Some technicianData)
     then Some (mkPerson
            (Some (or_lit (or_str (or_str (t username) (t name))
                             (t fullName)) "Unknown"))
            None None
            (Some (or_lit (t email) "N/A"))
            (Some (or_lit (t phone) "N/A"))
            None None None None None)
     else None)
    (* userDetails *)
    (if bool_decide (is_Some (userDetails appointment))
        || bool_decide (is_Some userData)
     then Some (mkPerson
            None
            (Some (or_lit (or_str (u username) (u name)) "Unknown"))
            None
            (Some (or_lit (u email) "N/A"))
            (Some (or_lit (u phone) "N/A"))
            None None None None None)
     else None)
    (* technicianDetails *)
    (if bool_decide (is_Some (technicianDetails appointment))
        || bool_decide (is_Some technicianData)
     then Some (mkPerson
            None
            (Some (or_lit (or_str (or_str (t username) (t name))
                             (t fullName)) "Unknown"))
            None None
            (Some (or_lit (t phone) "N/A"))
            (Some (or_lit (t experience) "N/A"))
            (Some (or_lit (t shopName) "N/A"))
            (Some (or_zero (or_num (tn averageRating) (tn rating))))
            None
            (Some (or_zero (tn distance))))
     else None).

Definition fetchUserAndTechnicianDetails (appointment : Appointment)
    : M Appointment :=
  try_catch
    (userData <~ readUser appointment ;;
     technicianData <~ readTechnician appointment ;;
     ret (merged appointment userData technicianData))
    (λ _, _ <~ log "Error in fetchUserAndTechnicianDetails:" ;;
          ret appointment).

(** React state of the page (lines 99-104), without the detail modal. *)
Record View : Type := mkView {
  repairs : list Appointment;
  loading : bool;
  searchTerm : string;
  typeFilter : string
}.

(** The page and its surroundings: the world the resolver runs in, and the
    resolution passes whose [await Promise.all(...)] has not resumed yet,
    keyed by the rank of the delivery that started them. *)
Record Page : Type := mkPage {
  view : View;
  world : World;
  delivered : nat;
  passes : gmap nat (list Appointment)
}.

Definition initial (d : Db) : Page :=
  mkPage (mkView [] true "" "all") (fresh d) 0 ∅.

Definition setRepairs (rs : list Appointment) (v : View) : View :=
  mkView rs (loading v) (searchTerm v) (typeFilter v).
Definition setLoading (b : bool) (v : View) : View :=
  mkView (repairs v) b (searchTerm v) (typeFilter v).

Inductive event : Type :=
| Snapshot (appointments : list Appointment)  (* onSnapshot success callback *)
| Settled (k : nat)          (* the pass of delivery [k] resumes after await *)
| SnapshotError              (* onSnapshot error callback *)
| Search (term : string)     (* setSearchTerm *)
| Filter (status : string).  (* setTypeFilter *)

(** The [useEffect] subscription, lines 168-208.  [appointments] is the
    snapshot after [snapshot.docs.map(...)]. *)
Definition step (e : event) (p : Page) : Page :=
  match e with
  | Snapshot appointments =>
      let k := S (delivered p) in
      if (length appointments =? 0)%nat
      then (* setRepairs([]); finally setLoading(false) *)
        mkPage (setLoading false (setRepairs [] (view p))) (world p) k (passes p)
      else
        match all fetchUserAndTechnicianDetails appointments (world p) with
        | (Ok processedAppointments, w) =>
            (* suspended at the await *)
            mkPage (view p) w k (<[k := processedAppointments]> (passes p))
        | (Throw _, w) =>
            (* catch: log only; finally setLoading(false) *)
            mkPage (setLoading false (view p))
              (snd (log "Error processing repairs:" w)) k (passes p)
        end
  | Settled k =>
      match passes p !! k with
      | Some processedAppointments =>
          mkPage (setLoading false (setRepairs processedAppointments (view p)))
            (world p) (delivered p) (delete k (passes p))
      | None => p
      end
  | SnapshotError =>
      (* Don't set error state, just log it *)
      mkPage (setLoading false (view p))
        (snd (log "Error fetching repairs:" (world p))) (delivered p) (passes p)
  | Search term =>
      mkPage (mkView (repairs (view p)) (loading (view p)) term
                (typeFilter (view p))) (world p) (delivered p) (passes p)
  | Filter status =>
      mkPage (mkView (repairs (view p)) (loading (view p))
                (searchTerm (view p)) status) (world p) (delivered p) (passes p)
  end.

Definition run (es : list event) (p : Page) : Page :=
  foldl (λ q e, step e q) p es.

(** [filteredRepairs], lines 210-231. *)
Definition matchesSearch (repair : Appointment) (searchLower : string) : value :=
  let d f := opt_field f (diagnosisData repair) in
  opt_includes (opt_field username (userInfo repair)) searchLower
  <||> opt_includes (opt_field name (userDetails repair)) searchLower
  <||> opt_includes (opt_field username (technicianInfo repair)) searchLower
  <||> opt_includes (opt_field name (technicianDetails repair)) searchLower
  <||> and_includes (deviceType repair) searchLower
  <||> and_includes (d category) searchLower
  <||> and_includes (d brand) searchLower
  <||> and_includes (issue repair) searchLower
  <||> and_includes (d dissue) searchLower
  <||> and_includes (d issueDescription) searchLower.

Definition keeps (searchTerm typeFilter : string) (repair : Appointment) : value :=
  let searchLower := toLowerCase searchTerm in
  if String.eqb typeFilter "all"
  then matchesSearch repair searchLower
  else matchesSearch repair searchLower
       <&&> VBool (bool_decide (status_global repair = Some typeFilter)).

Definition filter_by (records : list Appointment) (term status : string)
    : list Appointment :=
  filter (λ repair, truthy (keeps term status repair)) records.

Definition filteredRepairs (v : View) : list Appointment :=
  filter_by (repairs v) (searchTerm v) (typeFilter v).

(** The two [return]s of the component, lines 250-312. *)
Definition render (v : View) : Screen Appointment :=
  if loading v then Spinner
  else if (length (filteredRepairs v) =? 0)%nat then EmptyState
  else Cards (filteredRepairs v).

(** The names a card shows, lines 332 and 340. *)
Definition cardUser (repair : Appointment) : string :=
  or_lit (or_str (opt_field username (userInfo repair))
                 (opt_field name (userDetails repair))) "Unknown".
Definition cardTechnician (repair : Appointment) : string :=
  or_lit (or_str (opt_field username (technicianInfo repair))
                 (opt_field name (technicianDetails repair))) "Unknown".

End Repairs.

(** ** The appointments page *)

Module Appointments.
Import JS Store.

(** The object literal [{ username: .. || .. || "Unknown", email: .. ||
    "N/A", phone: .. || "N/A" }] built from [src], at the three places of
    [fetchUserAndTechnicianDetails] that write it. *)
Definition displayInfo (src : Person) : Person :=
  mkPerson
    (Some (or_lit (or_str (username src) (name src)) "Unknown"))
    None None
    (Some (or_lit (email src) "N/A"))
    (Some (or_lit (phone src) "N/A"))
    None None None None None.

(** [a || b] on optional objects: an object is truthy. *)
Definition or_obj {A} (a b : option A) : option A :=
  match a with Some _ => a | None => b end.

(** [fetchUserAndTechnicianDetails], lines 109-165, in its parts. *)

(** If we don't have user info, fetch from users collection
    (lines 114-129); [userInfo0] is [appointment.userInfo ||
    appointment.userDetails]. *)
Definition readUser (appointment : Appointment) (userInfo0 : option Person)
    : M (option Person) :=
  if negb (bool_decide (is_Some userInfo0))
     && str_truthy (userId appointment)
  then try_catch
         (userDoc <~ getDoc "users" (default "" (userId appointment)) ;;
          match userDoc with
          | Some userData => ret (Some (displayInfo userData))
          | None => ret userInfo0
          end)
         (λ _, _ <~ log "Could not fetch user details:" ;; ret userInfo0)
  else ret userInfo0.

(** If we don't have technician info, fetch from technicians collection
    (lines 131-146). *)
Definition readTechnician (appointment : Appointment)
    (technicianInfo0 : option Person) : M (option Person) :=
  if negb (bool_decide (is_Some technicianInfo0))
     && str_truthy (technicianId appointment)
  then try_catch
         (techDoc <~ getDoc "technicians"
                       (default "" (technicianId appointment)) ;;
          match techDoc with
          | Some techData => ret (Some (displayInfo techData))
          | None => ret technicianInfo0
          end)
         (λ _, _ <~ log "Could not fetch technician details:" ;;
               ret technicianInfo0)
  else ret technicianInfo0.

(** The returned object (lines 148-160). *)
Definition merged (appointment : Appointment)
    (userInfo1 technicianInfo1 : option Person) : Appointment :=
  spread2 appointment
    (displayInfo <$> userInfo1) (displayInfo <$> technicianInfo1).

Definition fetchUserAndTechnicianDetails (appointment : Appointment)
    : M Appointment :=
  try_catch
    (userInfo1 <~
       readUser appointment
         (or_obj (userInfo appointment) (userDetails appointment)) ;;
     technicianInfo1 <~
       readTechnician appointment
         (or_obj (technicianInfo appointment)
                 (technicianDetails appointment)) ;;
     ret (merged appointment userInfo1 technicianInfo1))
    (λ _, _ <~ log "Error fetching user/technician details:" ;;
          ret appointment).

(** React state of the page (lines 96-100), without the diagnosis modal. *)
Record View : Type := mkView {
  appointments : list Appointment;
  loading : bool;
  error : option string;
  searchTerm : string;
  statusFilter : string
}.

Record Page : Type := mkPage {
  view : View;
  world : World;
  delivered : nat;
  passes : gmap nat (list Appointment)
}.

Definition initial (d : Db) : Page :=
  mkPage (mkView [] true None "" "all") (fresh d) 0 ∅.

Definition setAppointments (rs : list Appointment) (v : View) : View :=
  mkView rs (loading v) (error v) (searchTerm v) (statusFilter v).
Definition setLoading (b : bool) (v : View) : View :=
  mkView (appointments v) b (error v) (searchTerm v) (statusFilter v).
Definition setError (e : option string) (v : View) : View :=
  mkView (appointments v) (loading v) e (searchTerm v) (statusFilter v).

Inductive event : Type :=
| Snapshot (appointmentsData : list Appointment)
| Settled (k : nat)
| SnapshotError
| Search (term : string)
| Filter (status : string).

(** The [useEffect] subscription, lines 167-199. *)
Definition step (e : event) (p : Page) : Page :=
  match e with
  | Snapshot appointmentsData =>
      let k := S (delivered p) in
      let v := setError None (view p) in
      match all fetchUserAndTechnicianDetails appointmentsData (world p) with
      | (Ok processedAppointments, w) =>
          mkPage v w k (<[k := processedAppointments]> (passes p))
      | (Throw _, w) =>
          mkPage (setLoading false
                    (setError (Some "Failed to load appointments") v))
            (snd (log "Error processing appointments:" w)) k (passes p)
      end
  | Settled k =>
      match passes p !! k with
      | Some processedAppointments =>
          mkPage (setLoading false
                    (setAppointments processedAppointments (view p)))
            (world p) (delivered p) (delete k (passes p))
      | None => p
      end
  | SnapshotError =>
      mkPage (setLoading false
                (setError (Some "Failed to connect to database") (view p)))
        (snd (log "Firestore error:" (world p))) (delivered p) (passes p)
  | Search term =>
      mkPage (mkView (appointments (view p)) (loading (view p))
                (error (view p)) term (statusFilter (view p)))
        (world p) (delivered p) (passes p)
  | Filter status =>
      mkPage (mkView (appointments (view p)) (loading (view p))
                (error (view p)) (searchTerm (view p)) status)
        (world p) (delivered p) (passes p)
  end.

Definition run (es : list event) (p : Page) : Page :=
  foldl (λ q e, step e q) p es.

(** [filteredAppointments], lines 202-234. *)
Definition userName (appointment : Appointment) : string :=
  or_lit (or_str (or_str (opt_field username (userInfo appointment))
                         (opt_field name (userDetails appointment)))
                 (opt_field username (userDetails appointment))) "Unknown".
Definition techName (appointment : Appointment) : string :=
  or_lit (or_str (or_str (opt_field username (technicianInfo appointment))
                         (opt_field name (technicianDetails appointment)))
                 (opt_field username (technicianDetails appointment))) "Unknown".
Definition deviceTypeOf (appointment : Appointment) : string :=
  or_lit (or_str (or_str (deviceType appointment)
                         (opt_field category (diagnosisData appointment)))
                 (opt_field brand (diagnosisData appointment))) "".
Definition issueOf (appointment : Appointment) : string :=
  or_lit (or_str (or_str (issue appointment)
                         (opt_field dissue (diagnosisData appointment)))
                 (opt_field diagnosis (diagnosisData appointment))) "".

Definition matchesSearch (appointment : Appointment) (searchLower : string)
    : bool :=
  includes (toLowerCase (userName appointment)) searchLower
  || includes (toLowerCase (techName appointment)) searchLower
  || includes (toLowerCase (deviceTypeOf appointment)) searchLower
  || includes (toLowerCase (issueOf appointment)) searchLower.

Definition matchesStatus (appointment : Appointment) (statusFilter : string)
    : bool :=
  String.eqb statusFilter "all"
  || bool_decide (status_global appointment = Some statusFilter).

Definition keeps (searchTerm statusFilter : string) (appointment : Appointment)
    : bool :=
  matchesSearch appointment (toLowerCase searchTerm)
  && matchesStatus appointment statusFilter.

Definition filter_by (records : list Appointment) (term status : string)
    : list Appointment :=
  filter (λ appointment, keeps term status appointment) records.

Definition filteredAppointments (v : View) : list Appointment :=
  filter_by (appointments v) (searchTerm v) (statusFilter v).

(** The three [return]s of the component, lines 249-330. *)
Definition render (v : View) : Screen Appointment :=
  if loading v then Spinner
  else if str_truthy (error v) then ErrorState (default "" (error v)) true
  else if (length (filteredAppointments v) =? 0)%nat then EmptyState
  else Cards (filteredAppointments v).

End Appointments.

(** ** The freelance page ([src/pages/freelance.tsx]) *)

Module Freelance.
Import JS.

(** A [FreelanceTechnician]: an open record. *)
Abbreviation Technician := (gmap string value).

(** [t.f]: a missing property reads as [undefined]. *)
Definition prop (t : Technician) (f : string) : value :=
  default VUndef (t !! f).

(** [{ uid: d.id, ...d.data() }], line 51: the fields of the document come
    after [uid] and win over it. *)
Definition toRecord (d : string * Technician) : Technician :=
  snd d ∪ {[ "uid" := VStr (fst d) ]}.

(** The predicate of [docs.filter], lines 56-59. *)
Definition isFreelance (t : Technician) : bool :=
  let status :=
    match prop t "status" with VStr s => toLowerCase s | _ => "" end in
  negb (truthy (prop t "isDeleted"))
  && String.eqb status "approved"
  && negb (truthy (prop t "hasShop")).

Definition freelanceTechs (docs : list Technician) : list Technician :=
  filter (λ t, isFreelance t) docs.

(** The partial document of the soft delete, lines 99-103. *)
Definition softDelete (now : string) : Technician :=
  {[ "isDeleted" := VBool true;
     "deletedAt" := VStr now;
     "deletedBy" := VStr "admin" ]}.

(** [setDoc(ref, fields, { merge: true })] once it is committed: the given
    fields replace the stored ones, every other field stays; a document
    that does not exist is created. *)
Definition mergeWrite (uid : string) (fields : Technician)
    (store : gmap string Technician) : gmap string Technician :=
  <[ uid := fields ∪ default ∅ (store !! uid) ]> store.

(** The page: its React state ([freelancers], [loading], [selected]), the
    [technicians] collection, the confirmation dialog when it is open
    (with the technician it asks about), the [setDoc] calls issued so far
    and those not settled yet, and what the user was told. *)
Record Page : Type := mkPage {
  freelancers : list Technician;
  loading : bool;
  selected : option Technician;
  store : gmap string Technician;
  gate : option Technician;
  writes : list (string * Technician);
  inflight : gmap nat (string * Technician);
  alerts : list string;
  console : list string
}.

Definition initial (st : gmap string Technician) : Page :=
  mkPage [] true None st None [] ∅ [] [].

Inductive event : Type :=
| Snapshot (docs : list (string * Technician))  (* onSnapshot success *)
| SnapshotError                                 (* onSnapshot error *)
| Select (f : Technician)                       (* View Details *)
| Close                                         (* close the detail modal *)
| ClickDelete                                   (* Delete Technician *)
| Confirm (now : string)   (* the dialog resolves true; [now] is the clock *)
| Cancel                   (* the dialog resolves false *)
| WriteOk (k : nat)        (* the [k]-th setDoc resolves *)
| WriteFailed (k : nat).   (* the [k]-th setDoc rejects *)

(** Modelled from the spec: the [useConfirmation] hook is not part of the
    sources at hand.  Section 4.4 describes it as a two-state
    confirm/cancel gate in front of the write: [confirmation.confirm(...)]
    opens the dialog and its promise resolves to [true] on confirm and to
    [false] on cancel.  One dialog is open at a time. *)
Definition openGate (f : Technician) (p : Page) : Page :=
  mkPage (freelancers p) (loading p) (selected p) (store p) (Some f)
    (writes p) (inflight p) (alerts p) (console p).
Definition closeGate (p : Page) : Page :=
  mkPage (freelancers p) (loading p) (selected p) (store p) None
    (writes p) (inflight p) (alerts p) (console p).

Definition setSelected (s : option Technician) (p : Page) : Page :=
  mkPage (freelancers p) (loading p) s (store p) (gate p)
    (writes p) (inflight p) (alerts p) (console p).

(** The [catch] of [handleDelete], lines 105-108. *)
Definition failed (p : Page) : Page :=
  mkPage (freelancers p) (loading p) (selected p) (store p) (gate p)
    (writes p) (inflight p)
    (alerts p ++ ["Failed to delete. Check console for details."])
    (console p ++ ["Failed to delete technician doc:"]).

(** The subscription (lines 46-71) and [handleDelete] (lines 88-110), cut
    at their [await]s.  On confirmation the write goes to the document
    [technicians/uid]: this is what [doc] and [setDoc] do for a [uid] of
    one path segment, and the statements about the document written are
    made for such ids ([Terms.document_id]). *)
Definition step (e : event) (p : Page) : Page :=
  match e with
  | Snapshot docs =>
      mkPage (freelanceTechs (toRecord <$> docs)) false (selected p) (store p)
        (gate p) (writes p) (inflight p) (alerts p) (console p)
  | SnapshotError =>
      mkPage (freelancers p) false (selected p) (store p) (gate p) (writes p)
        (inflight p) (alerts p)
        (console p ++ ["technicians onSnapshot error:"])
  | Select f => setSelected (Some f) p
  | Close => setSelected None p
  | ClickDelete =>
      (* the button belongs to the detail modal of [selected] *)
      match selected p, gate p with
      | Some freelancer, None =>
          if negb (truthy (prop freelancer "uid")) then p
          else openGate freelancer p
      | _, _ => p
      end
  | Confirm now =>
      match gate p with
      | Some freelancer =>
          let p := closeGate p in
          match prop freelancer "uid" with
          | VStr uid =>
              let k := S (length (writes p)) in
              mkPage (freelancers p) (loading p) (selected p) (store p)
                (gate p) (writes p ++ [(uid, softDelete now)])
                (<[k := (uid, softDelete now)]> (inflight p))
                (alerts p) (console p)
          | _ => failed p   (* doc() rejects an id that is not a string *)
          end
      | None => p
      end
  | Cancel => closeGate p
  | WriteOk k =>
      match inflight p !! k with
      | Some (uid, fields) =>
          mkPage (freelancers p) (loading p) None
            (mergeWrite uid fields (store p)) (gate p) (writes p)
            (delete k (inflight p)) (alerts p) (console p)
      | None => p
      end
  | WriteFailed k =>
      match inflight p !! k with
      | Some _ =>
          let q := failed p in
          mkPage (freelancers q) (loading q) (selected q) (store q) (gate q)
            (writes q) (delete k (inflight q)) (alerts q) (console q)
      | None => p
      end
  end.

Definition run (es : list event) (p : Page) : Page :=
  foldl (λ q e, step e q) p es.

(** The list part of the component's [return], lines 120-136. *)
Definition render (p : Page) : Screen Technician :=
  if loading p then Spinner
  else if (length (freelancers p) =? 0)%nat then EmptyState
  else Cards (freelancers p).

End Freelance.

(** ** Card texts and status colours *)

Module Cards.
Import JS.

(** The rows of a repair card next to the two names
    ([src/pages/repairs.tsx], lines 348, 356 and 363-366). *)
Definition repairStatus (repair : Appointment) : string :=
  or_lit (status_global repair) "Unknown".
Definition repairDevice (repair : Appointment) : string :=
  or_lit (or_str (deviceType repair)
                 (opt_field category (diagnosisData repair))) "N/A".
Definition repairIssue (repair : Appointment) : string :=
  or_lit (or_str (or_str (issue repair)
                         (opt_field issueDescription (diagnosisData repair)))
                 (opt_field dissue (diagnosisData repair))) "N/A".

(** The device and issue rows of an appointment card (appointments page,
    lines 376-379 and 387-390); the two names of the card are
    [Appointments.userName] and [Appointments.techName], written out again
    at lines 340 and 356-359. *)
Definition appointmentDevice (appointment : Appointment) : string :=
  or_lit (or_str (or_str (deviceType appointment)
                         (opt_field category (diagnosisData appointment)))
                 (opt_field brand (diagnosisData appointment))) "N/A".
Definition appointmentIssue (appointment : Appointment) : string :=
  or_lit (or_str (or_str (issue appointment)
                         (opt_field issueDescription
                            (diagnosisData appointment)))
                 (opt_field dissue (diagnosisData appointment))) "N/A".

(** [getStatusColor] of the repairs page, lines 233-244. *)
Definition repairStatusColor (status : string) : string :=
  if String.eqb status "Completed" then "#4CAF50"
  else if String.eqb status "Repairing" then "#FF9800"
  else if String.eqb status "Testing" then "#2196F3"
  else "#666".

(** [getStatusColor] of the appointments page, lines 236-247. *)
Definition appointmentStatusColor (status : string) : string :=
  if String.eqb status "Scheduled" then "#3b82f6"
  else if String.eqb status "Accepted" then "#10b981"
  else if String.eqb status "Repairing" then "#f59e0b"
  else if String.eqb status "Testing" then "#8b5cf6"
  else if String.eqb status "Completed" then "#059669"
  else if String.eqb status "Rejected" then "#ef4444"
  else if String.eqb status "Cancelled" then "#6b7280"
  else "#6b7280".

End Cards.

(** ** Opening hours of the freelance detail modal *)

Module Clock.
Import JS.

(** [s.split(':')]: the pieces between the colons; never empty. *)
Fixpoint split_colon (s : string) : list string :=
  match s with
  | EmptyString => [EmptyString]
  | String c s' =>
      if Ascii.eqb c ":" then EmptyString :: split_colon s'
      else match split_colon s' with
           | piece :: pieces => String c piece :: pieces
           | [] => [String c EmptyString]
           end
  end.

(** White space that [parseInt] skips (the ASCII part of it: tab, line
    feed, vertical tab, form feed, carriage return, space). *)
Definition is_space (c : ascii) : bool :=
  let n := N_of_ascii c in
  ((9 <=? n) && (n <=? 13) || (n =? 32))%N.

Fixpoint trim_start (s : string) : string :=
  match s with
  | String c s' => if is_space c then trim_start s' else s
  | EmptyString => s
  end.

(** The value of a digit in the given radix (10 or 16). *)
Definition digit_value (radix : Z) (c : ascii) : option Z :=
  let n := Z.of_N (N_of_ascii c) in
  let v :=
    (if (48 <=? n) && (n <=? 57) then Some (n - 48)
     else if (97 <=? n) && (n <=? 122) then Some (n - 87)
     else if (65 <=? n) && (n <=? 90) then Some (n - 55)
     else None)%Z in
  match v with
  | Some d => if (d <? radix)%Z then Some d else None
  | None => None
  end.

(** The longest prefix of digits, read as a number; [acc] is [None] as
    long as no digit was seen. *)
Fixpoint read_digits (radix : Z) (s : string) (acc : option Z) : option Z :=
  match s with
  | EmptyString => acc
  | String c s' =>
      match digit_value radix c with
      | Some d => read_digits radix s' (Some (default 0 acc * radix + d))%Z
      | None => acc
      end
  end.

(** [parseInt(s)] with no radix; [None] is [NaN].  Numbers are integers:
    exact as long as the digits stay below 2^53. *)
Definition parseInt (s : string) : option Z :=
  let s := trim_start s in
  let '(sign, s) :=
    match s with
    | String "-" r => ((-1)%Z, r)
    | String "+" r => (1%Z, r)
    | _ => (1%Z, s)
    end in
  let '(radix, s) :=
    match s with
    | String "0" (String "x" r) | String "0" (String "X" r) => (16%Z, r)
    | _ => (10%Z, s)
    end in
  (λ n, sign * n)%Z <$> read_digits radix s None.

(** A number inside a template literal. *)
Definition show (n : Z) : string := NilZero.string_of_int (Z.to_int n).

(** [formatTime], [src/pages/freelance.tsx] lines 74-85.  A truthy
    argument that is not a string has no [split]: the call throws and the
    [catch] returns the argument. *)
Definition formatTime (time24 : value) : value :=
  if negb (truthy time24) then VStr "Not set"
  else
    match time24 with
    | VStr s =>
        let pieces := split_colon s in
        let hours := default "" (pieces !! 0%nat) in
        let minutes := default "undefined" (pieces !! 1%nat) in
        let hour := parseInt hours in
        let ampm :=
          match hour with
          | Some h => if (12 <=? h)%Z then "PM" else "AM"
          | None => "AM"
          end in
        let hour12 :=
          match hour with
          | Some h => if (Z.rem h 12 =? 0)%Z then 12%Z else Z.rem h 12
          | None => 12%Z
          end in
        VStr (String.append (show hour12)
                (String.append ":"
                   (String.append minutes (String.append " " ampm))))
    | other => other
    end.

(** [formatTime(x) || "Not set"], lines 164-165. *)
Definition shownTime (time24 : value) : value :=
  formatTime time24 <||> VStr "Not set".

(** A time of day as the registration form stores it: two digits, a
    colon, two digits. *)
Definition two_digits (n : Z) : string :=
  if (n <? 10)%Z then String.append "0" (show n) else show n.
Definition time24 (h m : Z) : string :=
  String.append (two_digits h) (String.append ":" (two_digits m)).

End Clock.

(** ** The diagnosis modal of the appointments page *)

Module DiagnosisModal.
Import JS.

(** A document of the [diagnoses] collection, by the fields the page
    reads. *)
Record Doc : Type := mkDoc {
  doc_category : option string;
  doc_deviceType : option string;
  doc_brand : option string;
  doc_model : option string;
  doc_issueDescription : option string;
  doc_issue : option string;
  doc_diagnosis : option string;
  doc_findings : option string;
  doc_estimatedCost : option Z;
  doc_isCustomIssue : option bool
}.

(** [AppointmentData["diagnosisData"]]: what the modal shows. *)
Record Data : Type := mkData {
  category : option string;
  brand : option string;
  model : option string;
  issue : option string;
  issueDescription : option string;
  diagnosis : option string;
  estimatedCost : option Z;
  isCustomIssue : option bool
}.

#[global] Instance Doc_eq_dec : EqDecision Doc.
Proof. solve_decision. Defined.
#[global] Instance Data_eq_dec : EqDecision Data.
Proof. solve_decision. Defined.

(** The object built from a fetched document, lines 413-421. *)
Definition fromDoc (data : Doc) : Data :=
  mkData
    (Some (or_lit (or_str (doc_category data) (doc_deviceType data)) ""))
    (Some (or_lit (or_str (doc_brand data) (doc_model data)) ""))
    (doc_model data)
    (Some (or_lit (or_str (doc_issueDescription data) (doc_issue data)) ""))
    None
    (Some (or_lit (or_str (doc_diagnosis data) (doc_findings data)) ""))
    (doc_estimatedCost data)
    (doc_isCustomIssue data).

(** The [diagnoses] collection and the documents that cannot be read. *)
Record Diagnoses : Type := mkDiagnoses {
  docs : gmap string Doc;
  unreadable : gset string
}.

(** How [await getDoc(doc(db, 'diagnoses', id))] ends. *)
Inductive outcome : Type :=
| Found (data : Doc)
| Missing
| Failed.

Definition getDoc (d : Diagnoses) (i : string) : outcome :=
  if decide (i ∈ unreadable d) then Failed
  else match docs d !! i with Some data => Found data | None => Missing end.

(** The modal's React state (lines 102-105) and the fetches that have not
    resumed yet, keyed by the rank of the click that started them. *)
Record Modal : Type := mkModal {
  showDiagnosisModal : bool;
  diagnosisLoading : bool;
  diagnosisError : option string;
  diagnosisData : option Data;
  clicks : nat;
  fetching : gmap nat outcome
}.

Definition closed : Modal := mkModal false false None None 0 ∅.

Inductive event : Type :=
| Click (embedded : option Data) (diagnosisId : option string)
                           (* View Diagnosis on a card *)
| Resumed (k : nat)        (* the fetch of click [k] resumes *)
| Close.                   (* the overlay or the close button *)

(** What follows the [await], lines 411-424, the [catch] and the
    [finally]. *)
Definition settle (o : outcome) (m : Modal) : Modal :=
  match o with
  | Found data =>
      mkModal (showDiagnosisModal m) false (diagnosisError m)
        (Some (fromDoc data)) (clicks m) (fetching m)
  | Missing =>
      mkModal (showDiagnosisModal m) false (Some "Diagnosis not found.")
        (diagnosisData m) (clicks m) (fetching m)
  | Failed =>
      mkModal (showDiagnosisModal m) false (Some "Failed to load diagnosis.")
        (diagnosisData m) (clicks m) (fetching m)
  end.

(** The [onClick] of View Diagnosis, lines 402-434, and the two ways to
    close the modal, lines 449 and 453. *)
Definition step (d : Diagnoses) (e : event) (m : Modal) : Modal :=
  match e with
  | Click embedded diagnosisId =>
      let k := S (clicks m) in
      (* setDiagnosisError(null); setDiagnosisLoading(true);
         setShowDiagnosisModal(true) *)
      match embedded with
      | Some data =>
          mkModal true false None (Some data) k (fetching m)
      | None =>
          if str_truthy diagnosisId
          then mkModal true true None (diagnosisData m) k
                 (<[k := getDoc d (default "" diagnosisId)]> (fetching m))
          else mkModal true false
                 (Some "No diagnosis information available for this appointment.")
                 (diagnosisData m) k (fetching m)
      end
  | Resumed k =>
      match fetching m !! k with
      | Some o =>
          let m' := settle o m in
          mkModal (showDiagnosisModal m') (diagnosisLoading m')
            (diagnosisError m') (diagnosisData m') (clicks m')
            (delete k (fetching m'))
      | None => m
      end
  | Close =>
      mkModal false (diagnosisLoading m) (diagnosisError m)
        (diagnosisData m) (clicks m) (fetching m)
  end.

Definition run (d : Diagnoses) (es : list event) (m : Modal) : Modal :=
  foldl (λ q e, step d e q) m es.

(** The body of the modal, lines 447-473. *)
Inductive Body : Type :=
| Hidden
| LoadingDiagnosis
| DiagnosisError (message : string)
| Grid (data : Data)
| NoData.

Definition render (m : Modal) : Body :=
  if negb (showDiagnosisModal m) then Hidden
  else if diagnosisLoading m then LoadingDiagnosis
  else if str_truthy (diagnosisError m)
       then DiagnosisError (default "" (diagnosisError m))
  else match diagnosisData m with
       | Some data => Grid data
       | None => NoData
       end.

(** The text rows of the grid, lines 461-464.
    [[brand, model].filter(Boolean).join(' ')] keeps the parts that are
    not empty and puts one space between them. *)
Definition categoryRow (data : Data) : string := or_lit (category data) "N/A".
Definition brandModelRow (data : Data) : string :=
  let joined :=
    match str_truthy (brand data), str_truthy (model data) with
    | true, true =>
        String.append (default "" (brand data))
          (String.append " " (default "" (model data)))
    | true, false => default "" (brand data)
    | false, true => default "" (model data)
    | false, false => ""
    end in
  or_lit (Some joined) "N/A".
Definition issueRow (data : Data) : string := or_lit (issue data) "N/A".
Definition diagnosisRow (data : Data) : string :=
  or_lit (diagnosis data) "N/A".

End DiagnosisModal.

(** ** Vocabulary of the statements *)

Module Terms.
Import JS.

(** Whether the optional field [o] holds a string that contains [t],
    ignoring case: what one field contributes to a search. *)
Definition hit (t : string) (o : option string) : bool :=
  match o with
  | Some s => includes (toLowerCase s) t
  | None => false
  end.

(** The fields of a repair the search looks at. *)
Definition searchable (r : Appointment) : list (option string) :=
  [ opt_field username (userInfo r);
    opt_field name (userDetails r);
    opt_field username (technicianInfo r);
    opt_field name (technicianDetails r);
    deviceType r;
    opt_field category (diagnosisData r);
    opt_field brand (diagnosisData r);
    issue r;
    opt_field dissue (diagnosisData r);
    opt_field issueDescription (diagnosisData r) ].

(** The four strings the appointments page searches. *)
Definition displayed (a : Appointment) : list string :=
  [ Appointments.userName a; Appointments.techName a;
    Appointments.deviceTypeOf a; Appointments.issueOf a ].

(** What a point read of document [i] of collection [c] hands to the
    resolver: the document, or nothing when the read fails, the document
    does not exist or the record holds no reference. *)
Definition fetched (c : string) (i : option string) (d : Store.Db)
    : option Person :=
  match i with
  | Some s =>
      if decide ((c, s) ∈ Store.unreadable d) then None
      else Store.collection d c !! s
  | None => None
  end.

(** A reference that is set: [undefined] and the empty string are not. *)
Definition ref (i : option string) : option string :=
  if str_truthy i then i else None.

(** The record embeds a display snapshot of its user / technician. *)
Definition embeds_user (a : Appointment) : bool :=
  bool_decide (is_Some (userInfo a)) || bool_decide (is_Some (userDetails a)).
Definition embeds_technician (a : Appointment) : bool :=
  bool_decide (is_Some (technicianInfo a))
  || bool_decide (is_Some (technicianDetails a)).

(** The point reads one resolution of [a] issues. *)
Definition lookups (a : Appointment) : list (string * string) :=
  (if embeds_user a then []
   else match ref (userId a) with Some i => [("users", i)] | None => [] end)
  ++ (if embeds_technician a then []
      else match ref (technicianId a) with
           | Some i => [("technicians", i)]
           | None => []
           end).

(** The resolved form of a record against the store [d], page by page:
    the returned object of the resolver, filled with what the point reads
    of [d] hand over. *)
Definition resolvedRepair (d : Store.Db) (a : Appointment) : Appointment :=
  Repairs.merged a
    (if embeds_user a then None else fetched "users" (ref (userId a)) d)
    (if embeds_technician a then None
     else fetched "technicians" (ref (technicianId a)) d).

Definition resolvedAppointment (d : Store.Db) (a : Appointment)
    : Appointment :=
  Appointments.merged a
    (Appointments.or_obj
       (Appointments.or_obj (userInfo a) (userDetails a))
       (Appointments.displayInfo <$>
          (if embeds_user a then None
           else fetched "users" (ref (userId a)) d)))
    (Appointments.or_obj
       (Appointments.or_obj (technicianInfo a) (technicianDetails a))
       (Appointments.displayInfo <$>
          (if embeds_technician a then None
           else fetched "technicians" (ref (technicianId a)) d))).

(** The entity [i] refers to is absent from [c] or cannot be read. *)
Definition missing (c : string) (i : option string) (d : Store.Db) : Prop :=
  fetched c i d = None.

(** Two stores answer every point read of collection [c] alike. *)
Definition agree_on (c : string) (d1 d2 : Store.Db) : Prop :=
  ∀ i, fetched c i d1 = fetched c i d2.

(** The value an [async] call resolved to, if it did not reject. *)
Definition returned {A} (x : Store.result A * Store.World) : option A :=
  match fst x with Store.Ok a => Some a | Store.Throw _ => None end.

(** The sentinel snapshots. *)
Definition unknownInfo : Person :=
  mkPerson (Some "Unknown") None None (Some "N/A") (Some "N/A")
    None None None None None.

(** A display snapshot with a name, an e-mail address and a phone number. *)
Definition usable (i : Person) : Prop :=
  str_truthy (username i) ∧ str_truthy (email i) ∧ str_truthy (phone i).

(** A technician record whose [isDeleted], [hasShop] and [status] have the
    types the [FreelanceTechnician] interface declares. *)
Definition declared (t : Freelance.Technician) : Prop :=
  (t !! "isDeleted" = None ∨ ∃ b, t !! "isDeleted" = Some (VBool b))
  ∧ (t !! "hasShop" = None ∨ ∃ b, t !! "hasShop" = Some (VBool b))
  ∧ (t !! "status" = None ∨ ∃ s, t !! "status" = Some (VStr s)).

(** Not deleted, approved (in any letter case), without a shop. *)
Definition approvedFreelancer (t : Freelance.Technician) : Prop :=
  (t !! "isDeleted" = None ∨ t !! "isDeleted" = Some (VBool false))
  ∧ (∃ s, t !! "status" = Some (VStr s) ∧ toLowerCase s = "approved")
  ∧ (t !! "hasShop" = None ∨ t !! "hasShop" = Some (VBool false)).

(** Text in the ASCII range.  On it [toLowerCase] changes the letters A
    to Z and nothing else, and [Clock.parseInt] skips exactly the white
    space the engine skips. *)
Fixpoint ascii_only (s : string) : bool :=
  match s with
  | EmptyString => true
  | String c s' => (N_of_ascii c <? 128)%N && ascii_only s'
  end.

Definition ascii_field (o : option string) : bool :=
  match o with Some s => ascii_only s | None => true end.

(** Every text field of the record that a search reads is ASCII text. *)
Definition ascii_record (a : Appointment) : bool :=
  forallb ascii_field
    (searchable a
     ++ [ opt_field username (userDetails a);
          opt_field username (technicianDetails a);
          opt_field diagnosis (diagnosisData a) ]).





(** An id that [doc(db, "technicians", id)] takes as the name of one
    document of the collection: a single path segment.  For an id with a
    '/' in it, [doc] either throws or names a document elsewhere. *)
Definition document_id (i : string) : bool := negb (includes i "/").

End Terms.

(** ** Sample data *)

Module Samples.
Import JS.

(** Three technicians: approved without a shop, approved with a shop,
    pending. *)
Definition tech1 : string * Freelance.Technician :=
  ("t1", {[ "status" := VStr "Approved"; "hasShop" := VBool false;
            "username" := VStr "ana" ]}).
Definition tech2 : string * Freelance.Technician :=
  ("t2", {[ "status" := VStr "approved"; "hasShop" := VBool true ]}).
Definition tech3 : string * Freelance.Technician :=
  ("t3", {[ "status" := VStr "pending" ]}).

(** A store with one user and one technician; a second technician
    cannot be read. *)
Definition alice : Person :=
  mkPerson (Some "alice") None None (Some "alice@example.org") (Some "0917")
    None None None None None.
Definition bob : Person :=
  mkPerson None None (Some "Bob Cruz") None (Some "0918")
    (Some "5 years") None (Some 4%Z) None None.
Definition db1 : Store.Db :=
  Store.mkDb {[ "u1" := alice ]} {[ "t1" := bob ]} {[ ("technicians", "t9") ]}.

(** A raw record: references only. *)
Definition raw : Appointment :=
  mkAppointment "a1" (Some "u1") (Some "t1") (Some "Laptop") None
    (Some "Repairing") None None None None None ∅.

(** A record that refers to a user the store does not have and to a
    technician that cannot be read. *)
Definition orphan : Appointment :=
  mkAppointment "a2" (Some "u404") (Some "t9") None None
    (Some "Testing") None None None None None ∅.

(** A record that already embeds the user's display snapshot. *)
Definition embedded : Appointment :=
  mkAppointment "a3" (Some "u1") (Some "t1") None None
    (Some "Completed") None
    (Some (mkPerson (Some "alice") None None (Some "alice@example.org")
             (Some "0917") None None None None None))
    None None None ∅.

(** Two deliveries, [raw] then [orphan]; the pass of the second resumes
    before the pass of the first. *)
Definition raceR : list Repairs.event :=
  [Repairs.Snapshot [raw]; Repairs.Snapshot [orphan];
   Repairs.Settled 2; Repairs.Settled 1].
Definition raceA : list Appointments.event :=
  [Appointments.Snapshot [raw]; Appointments.Snapshot [orphan];
   Appointments.Settled 2; Appointments.Settled 1].

(** The freelance page after a first snapshot, with the detail modal of
    the first technician open; and a clock reading. *)
Definition store0 : gmap string Freelance.Technician :=
  list_to_map [tech1; tech2; tech3].
Definition page0 : Freelance.Page :=
  Freelance.run
    [Freelance.Snapshot [tech1; tech2; tech3];
     Freelance.Select (Freelance.toRecord tech1)]
    (Freelance.initial store0).
Definition noon : string := "2024-05-01T12:00:00.000Z".

(** A repair that carries none of the searched fields. *)
Definition bare : Appointment :=
  mkAppointment "a0" None None None None (Some "Repairing") None
    None None None None ∅.

(** A store in which the document "t1" carries the [uid] of the document
    "t2". *)
Definition misfiled : string * Freelance.Technician :=
  ("t1", {[ "uid" := VStr "t2"; "status" := VStr "approved";
            "username" := VStr "ana" ]}).
Definition neighbour : string * Freelance.Technician :=
  ("t2", {[ "status" := VStr "approved"; "username" := VStr "ben" ]}).
Definition store1 : gmap string Freelance.Technician :=
  list_to_map [misfiled; neighbour].

End Samples.

(** ** Vocabulary of the further properties *)

Module Notions.
Import JS.

(** A record the query of the repairs page lets through
    ([where("status.global", "in", ["Repairing", "Testing", "Completed"])],
    lines 170-174). *)
Definition queried (r : Appointment) : Prop :=
  status_global r = Some "Repairing"
  ∨ status_global r = Some "Testing"
  ∨ status_global r = Some "Completed".

End Notions.

Module Waiting.

(** Events that bring no result to the repairs page: a delivery with
    records (its pass is still to resume), a change of the search box or
    of the status filter. *)
Definition repairs_pending (e : Repairs.event) : bool :=
  match e with
  | Repairs.Snapshot appointments => negb (length appointments =? 0)%nat
  | Repairs.Search _ | Repairs.Filter _ => true
  | Repairs.Settled _ | Repairs.SnapshotError => false
  end.

(** The same for the appointments page, where every delivery starts a
    pass. *)
Definition appointments_pending (e : Appointments.event) : bool :=
  match e with
  | Appointments.Snapshot _ | Appointments.Search _
  | Appointments.Filter _ => true
  | Appointments.Settled _ | Appointments.SnapshotError => false
  end.

(** An event of the appointments page other than a delivery. *)
Definition no_delivery (e : Appointments.event) : bool :=
  match e with Appointments.Snapshot _ => false | _ => true end.

End Waiting.

Module Audit.
Import JS.

(** The number of confirmations among the events. *)
Definition is_confirm (e : Freelance.event) : bool :=
  match e with Freelance.Confirm _ => true | _ => false end.
Definition confirmations (es : list Freelance.event) : nat :=
  length (filter (λ e, is_confirm e) es).

(** Every write still in flight is a soft delete. *)
Definition soft_deletes_only (p : Freelance.Page) : Prop :=
  ∀ k uid fields, Freelance.inflight p !! k = Some (uid, fields) →
                  ∃ now, fields = Freelance.softDelete now.

(** A field that the soft delete does not name. *)
Definition untouched (k : string) : Prop :=
  k ≠ "isDeleted" ∧ k ≠ "deletedAt" ∧ k ≠ "deletedBy".

End Audit.

Module Expect.
Import JS DiagnosisModal.

(** What the modal should show for an appointment with the embedded
    diagnosis [embedded] and the reference [diagnosisId], given the
    collection [d]. *)
Definition shown (d : Diagnoses) (embedded : option Data)
    (diagnosisId : option string) : Body :=
  match embedded with
  | Some data => Grid data
  | None =>
      if str_truthy diagnosisId then
        match getDoc d (default "" diagnosisId) with
        | Found data => Grid (fromDoc data)
        | Missing => DiagnosisError "Diagnosis not found."
        | Failed => DiagnosisError "Failed to load diagnosis."
        end
      else DiagnosisError
             "No diagnosis information available for this appointment."
  end.

(** The hour of the 12-hour clock and the half of the day. *)
Definition hour12 (h : Z) : Z := if (h mod 12 =? 0)%Z then 12 else h mod 12.
Definition half (h : Z) : string := if (h <? 12)%Z then "AM" else "PM".

End Expect.

(** ** More sample data *)

Module Cases.
Import JS.

(** A repair in testing whose diagnosis names the device and the fault. *)
Definition diagnosed : Appointment :=
  mkAppointment "a4" (Some "u1") (Some "t1") None None (Some "Testing")
    (Some (mkDiagnosis (Some "Phone") (Some "iPhone") (Some "12")
             (Some "Display") (Some "Cracked screen") None))
    (Some Samples.alice) None None None ∅.


(** A collection of diagnoses with one document that names a model but no
    brand, and one that cannot be read. *)
Definition diagnoses1 : DiagnosisModal.Diagnoses :=
  DiagnosisModal.mkDiagnoses
    {[ "d1" := DiagnosisModal.mkDoc None (Some "Laptop") None (Some "X200")
                 None (Some "No power") None (Some "Dead battery")
                 (Some 1500%Z) None ]}
    {[ "d9" ]}.

(** The diagnosis a record may embed. *)
Definition embeddedDiagnosis : DiagnosisModal.Data :=
  DiagnosisModal.mkData (Some "Phone") (Some "iPhone") (Some "12")
    (Some "Display") None (Some "Replace panel") (Some 3500%Z) None.

End Cases.

(** * Properties *)

(** ** Strings *)

Section strings.
Import JS Terms.

Lemma toLowerCase_nonempty s : s ≠ "" → toLowerCase s ≠ "".
Proof. by destruct s. Qed.

Lemma includes_empty_l t : t ≠ "" → includes "" t = false.
Proof. by destruct t. Qed.

Lemma truthy_or a b : truthy (a <||> b) = truthy a || truthy b.
Proof. unfold js_or. by destruct (truthy a) eqn:E; rewrite ?E. Qed.

Lemma truthy_and a b : truthy (a <&&> b) = truthy a && truthy b.
Proof. unfold js_and. by destruct (truthy a) eqn:E; rewrite ?E. Qed.

Lemma truthy_opt_includes o t : truthy (opt_includes o t) = hit t o.
Proof. by destruct o. Qed.

Lemma truthy_and_includes o t : t ≠ "" → truthy (and_includes o t) = hit t o.
Proof.
  intros Ht. destruct o as [[|c s]|]; simpl; try done.
  symmetry. by apply includes_empty_l.
Qed.

End strings.

(** ** The freelance view model *)

Section freelance_filter.
Import JS Terms Freelance.

Lemma isFreelance_declared t :
  declared t → (isFreelance t ↔ approvedFreelancer t).
Proof.
  unfold declared, approvedFreelancer, isFreelance, prop.
  intros ([Hd|[bd Hd]] & [Hs|[bs Hs]] & [Ht|[st Ht]]);
    rewrite Hd, Hs, Ht; simpl;
    try destruct bd; try destruct bs; simpl;
    rewrite ?andb_True;
    (split;
     [ intros Hyp; try done; destruct Hyp as [He Hb]; try done;
       apply Is_true_true, String.eqb_eq in He; repeat split; eauto
     | intros (Hdel & (s & Hst & Hlow) & Hshop);
       destruct Hdel, Hshop; simplify_eq;
       try (split; [by apply Is_true_true, String.eqb_eq | done]) ]).
Qed.

(** C9.  After a snapshot of technician records, the freelance list holds
    exactly the records that are not deleted, approved in any letter case
    and without a shop, in snapshot order; of the three sample records
    (approved without shop, approved with shop, pending) only the first
    is listed. *)
Theorem freelance_view_model :
  (∀ (docs : list (string * Technician)) (p : Page) (t : Technician),
      Forall declared (toRecord <$> docs) →
      t ∈ freelancers (step (Snapshot docs) p)
      ↔ t ∈ toRecord <$> docs ∧ approvedFreelancer t)
  ∧ (∀ docs p,
      freelancers (step (Snapshot docs) p) `sublist_of` (toRecord <$> docs))
  ∧ (∀ p, freelancers
            (step (Snapshot [Samples.tech1; Samples.tech2; Samples.tech3]) p)
          = [toRecord Samples.tech1]).
Proof.
  split; [|split].
  - intros docs p t Hall. simpl. unfold freelanceTechs.
    rewrite list_elem_of_filter. split.
    + intros [Hf Hin]. split; [done|].
      apply isFreelance_declared; [|done].
      by eapply Forall_forall in Hall.
    + intros [Hin Hs]. split; [|done].
      apply isFreelance_declared; [|done].
      by eapply Forall_forall in Hall.
  - intros docs p. simpl. apply sublist_filter.
  - intros p. simpl. by vm_compute.
Qed.

End freelance_filter.

Lemma freelance_view_model_witness :
  Freelance.toRecord Samples.tech1
  ∈ Freelance.freelancers
      (Freelance.step
         (Freelance.Snapshot [Samples.tech1; Samples.tech2; Samples.tech3])
         (Freelance.initial ∅)).
Proof.
  apply (proj1 freelance_view_model
           [Samples.tech1; Samples.tech2; Samples.tech3]
           (Freelance.initial ∅) (Freelance.toRecord Samples.tech1)).
  - repeat apply Forall_cons_2; try apply Forall_nil;
      repeat split;
      first [ left; vm_compute; reflexivity
            | right; eexists; vm_compute; reflexivity ].
  - split; [left|].
    repeat split;
      first [ left; vm_compute; reflexivity
            | right; vm_compute; reflexivity
            | eexists; split; vm_compute; reflexivity ].
Defined.

(** ** The filters of the repairs and appointments pages *)

Section filters.
Import JS Terms.

Lemma repairs_matchesSearch_hits r sl :
  sl ≠ "" →
  truthy (Repairs.matchesSearch r sl) = existsb (hit sl) (searchable r).
Proof.
  intros Hsl. unfold Repairs.matchesSearch, searchable.
  rewrite !truthy_or, !truthy_opt_includes, !truthy_and_includes by done.
  simpl. by rewrite orb_false_r, <- !orb_assoc.
Qed.

Lemma appointments_matchesSearch_hits a sl :
  Appointments.matchesSearch a sl
  = existsb (λ s, includes (toLowerCase s) sl) (displayed a).
Proof.
  unfold Appointments.matchesSearch, displayed. simpl.
  by rewrite orb_false_r, <- !orb_assoc.
Qed.

Lemma repairs_bare_falsy r :
  Forall (λ o, o = None) (searchable r) →
  truthy (Repairs.keeps "" "all" r) = false.
Proof.
  unfold searchable. rewrite !Forall_cons.
  intros (H1 & H2 & H3 & H4 & H5 & H6 & H7 & H8 & H9 & H10 & _).
  unfold Repairs.keeps, Repairs.matchesSearch. simpl.
  by rewrite H1, H2, H3, H4, H5, H6, H7, H8, H9, H10.
Qed.

(** C10.  On the repairs page, with an empty search term and the status
    filter on "all", a record that carries none of the ten searched fields
    is left out of the list: the filter is not the identity even when
    nothing is searched or filtered. *)
Theorem repairs_filter_drops_bare_records :
  (∀ (r : Appointment) (rs : list Appointment),
      Forall (λ o, o = None) (searchable r) →
      r ∉ Repairs.filter_by rs "" "all")
  ∧ Repairs.filter_by [Samples.bare] "" "all" ≠ [Samples.bare].
Proof.
  split.
  - intros r rs Habs. unfold Repairs.filter_by.
    rewrite list_elem_of_filter. intros [Hk _].
    by rewrite (repairs_bare_falsy r Habs) in Hk.
  - by vm_compute.
Qed.

Lemma repairs_filter_drops_bare_records_witness :
  Samples.bare ∉ Repairs.filter_by [Samples.bare; Samples.bare] "" "all".
Proof.
  apply (proj1 repairs_filter_drops_bare_records Samples.bare).
  repeat constructor.
Defined.

(** C5.  The filter of either page is a function of the records, the term
    and the status alone; filtering its own output again changes nothing,
    and the output keeps the records in their input order. *)
Theorem filter_idempotent_order_preserving
    (records : list Appointment) (term status : string) :
  (Repairs.filter_by (Repairs.filter_by records term status) term status
     = Repairs.filter_by records term status
   ∧ Repairs.filter_by records term status `sublist_of` records)
  ∧ (Appointments.filter_by (Appointments.filter_by records term status)
       term status
     = Appointments.filter_by records term status
     ∧ Appointments.filter_by records term status `sublist_of` records).
Proof.
  unfold Repairs.filter_by, Appointments.filter_by.
  repeat split; try apply sublist_filter;
    by apply list_filter_filter_l.
Qed.

End filters.

Section search.
Import JS Terms.







End search.

(** ** The denormalization resolver *)

Section resolver.
Import JS Terms Store.

Lemma or_lit_truthy a lit :
  lit ≠ "" → str_truthy (Some (or_lit a lit)) = true.
Proof.
  intros Hl. destruct a as [[|c s]|]; simpl; try done; by destruct lit.
Qed.

Lemma or_lit_usable a lit : str_truthy a = true → Some (or_lit a lit) = a.
Proof. by destruct a as [[|c s]|]. Qed.

Lemma or_lit_or_lit a lit :
  lit ≠ "" → or_lit (Some (or_lit a lit)) lit = or_lit a lit.
Proof.
  intros Hl. apply (inj Some).
  by apply or_lit_usable, or_lit_truthy.
Qed.

Lemma displayInfo_idemp i :
  Appointments.displayInfo (Appointments.displayInfo i)
  = Appointments.displayInfo i.
Proof.
  unfold Appointments.displayInfo. cbn [username name email phone].
  unfold or_str at 1. rewrite or_lit_truthy by done.
  by rewrite !or_lit_or_lit.
Qed.

(** A guarded point read, whatever its outcome, returns and leaves the
    store as it is. *)
Lemma guarded_getDoc c i line w :
  ∃ w', try_catch (getDoc c i) (λ _, _ <~ log line ;; ret None) w
        = (Ok (fetched c (Some i) (db w)), w')
        ∧ db w' = db w ∧ reads w' = (reads w ++ [(c, i)])%list.
Proof.
  unfold try_catch, getDoc, fetched, bind, log, ret. simpl.
  destruct (decide _); simpl; eauto.
Qed.

Lemma repairs_readUser_spec a w :
  ∃ w', Repairs.readUser a w
        = (Ok (if embeds_user a then None
               else fetched "users" (ref (userId a)) (db w)), w')
        ∧ db w' = db w
        ∧ reads w' = (reads w ++
            if embeds_user a then []
            else match ref (userId a) with
                 | Some i => [("users", i)] | None => [] end)%list.
Proof.
  unfold Repairs.readUser, embeds_user, ref.
  rewrite <- negb_orb.
  destruct (_ || _); simpl.
  { exists w. by rewrite app_nil_r. }
  destruct (userId a) as [[|c s]|]; simpl;
    try (exists w; by rewrite app_nil_r).
  apply guarded_getDoc.
Qed.

Lemma repairs_readTechnician_spec a w :
  ∃ w', Repairs.readTechnician a w
        = (Ok (if embeds_technician a then None
               else fetched "technicians" (ref (technicianId a)) (db w)), w')
        ∧ db w' = db w
        ∧ reads w' = (reads w ++
            if embeds_technician a then []
            else match ref (technicianId a) with
                 | Some i => [("technicians", i)] | None => [] end)%list.
Proof.
  unfold Repairs.readTechnician, embeds_technician, ref.
  rewrite <- negb_orb.
  destruct (_ || _); simpl.
  { exists w. by rewrite app_nil_r. }
  destruct (technicianId a) as [[|c s]|]; simpl;
    try (exists w; by rewrite app_nil_r).
  apply guarded_getDoc.
Qed.

(** The repairs resolver always returns; its result is [merged] applied to
    what the two reads found; it reads [lookups a] and writes nothing. *)
Lemma repairs_fetch_spec a w :
  ∃ w', Repairs.fetchUserAndTechnicianDetails a w
        = (Ok (Repairs.merged a
                 (if embeds_user a then None
                  else fetched "users" (ref (userId a)) (db w))
                 (if embeds_technician a then None
                  else fetched "technicians" (ref (technicianId a)) (db w))),
           w')
        ∧ db w' = db w
        ∧ reads w' = (reads w ++ lookups a)%list.
Proof.
  destruct (repairs_readUser_spec a w) as (w1 & Hu & Hdb1 & Hr1).
  destruct (repairs_readTechnician_spec a w1) as (w2 & Ht & Hdb2 & Hr2).
  exists w2. unfold Repairs.fetchUserAndTechnicianDetails, try_catch, bind.
  rewrite Hu, Ht, Hdb1. simpl. split; [done|]. split; [congruence|].
  rewrite Hr2, Hr1. unfold lookups. by rewrite app_assoc.
Qed.

Lemma guarded_getDoc_display c i line w :
  ∃ w', try_catch
          (d <~ getDoc c i ;;
           match d with
           | Some x => ret (Some (Appointments.displayInfo x))
           | None => ret None
           end)
          (λ _, _ <~ log line ;; ret None) w
        = (Ok (Appointments.displayInfo <$> fetched c (Some i) (db w)), w')
        ∧ db w' = db w ∧ reads w' = (reads w ++ [(c, i)])%list.
Proof.
  unfold try_catch, getDoc, fetched, bind, log, ret. simpl.
  destruct (decide _); simpl; eauto.
  destruct (_ !! _); simpl; eauto.
Qed.

Lemma appointments_readUser_spec a w :
  ∃ w', Appointments.readUser a
          (Appointments.or_obj (userInfo a) (userDetails a)) w
        = (Ok (Appointments.or_obj
                 (Appointments.or_obj (userInfo a) (userDetails a))
                 (Appointments.displayInfo <$>
                    (if embeds_user a then None
                     else fetched "users" (ref (userId a)) (db w)))), w')
        ∧ db w' = db w
        ∧ reads w' = (reads w ++
            if embeds_user a then []
            else match ref (userId a) with
                 | Some i => [("users", i)] | None => [] end)%list.
Proof.
  unfold Appointments.readUser, embeds_user, ref.
  destruct (userInfo a), (userDetails a); simpl;
    try (exists w; by rewrite app_nil_r).
  destruct (userId a) as [[|c s]|]; simpl;
    try (exists w; by rewrite app_nil_r).
  apply guarded_getDoc_display.
Qed.

Lemma appointments_readTechnician_spec a w :
  ∃ w', Appointments.readTechnician a
          (Appointments.or_obj (technicianInfo a) (technicianDetails a)) w
        = (Ok (Appointments.or_obj
                 (Appointments.or_obj (technicianInfo a) (technicianDetails a))
                 (Appointments.displayInfo <$>
                    (if embeds_technician a then None
                     else fetched "technicians" (ref (technicianId a))
                            (db w)))), w')
        ∧ db w' = db w
        ∧ reads w' = (reads w ++
            if embeds_technician a then []
            else match ref (technicianId a) with
                 | Some i => [("technicians", i)] | None => [] end)%list.
Proof.
  unfold Appointments.readTechnician, embeds_technician, ref.
  destruct (technicianInfo a), (technicianDetails a); simpl;
    try (exists w; by rewrite app_nil_r).
  destruct (technicianId a) as [[|c s]|]; simpl;
    try (exists w; by rewrite app_nil_r).
  apply guarded_getDoc_display.
Qed.

(** The same for the appointments resolver. *)
Lemma appointments_fetch_spec a w :
  ∃ w', Appointments.fetchUserAndTechnicianDetails a w
        = (Ok (Appointments.merged a
                 (Appointments.or_obj
                    (Appointments.or_obj (userInfo a) (userDetails a))
                    (Appointments.displayInfo <$>
                       (if embeds_user a then None
                        else fetched "users" (ref (userId a)) (db w))))
                 (Appointments.or_obj
                    (Appointments.or_obj (technicianInfo a)
                       (technicianDetails a))
                    (Appointments.displayInfo <$>
                       (if embeds_technician a then None
                        else fetched "technicians" (ref (technicianId a))
                               (db w))))),
           w')
        ∧ db w' = db w
        ∧ reads w' = (reads w ++ lookups a)%list.
Proof.
  destruct (appointments_readUser_spec a w) as (w1 & Hu & Hdb1 & Hr1).
  destruct (appointments_readTechnician_spec a w1) as (w2 & Ht & Hdb2 & Hr2).
  exists w2.
  unfold Appointments.fetchUserAndTechnicianDetails, try_catch, bind.
  rewrite Hu, Ht, Hdb1. simpl. split; [done|]. split; [congruence|].
  rewrite Hr2, Hr1. unfold lookups. by rewrite app_assoc.
Qed.

(** Neither resolver writes to the store, and neither reads an entity the
    record already embeds. *)
Lemma resolver_reads_only a w :
  db (snd (Repairs.fetchUserAndTechnicianDetails a w)) = db w
  ∧ db (snd (Appointments.fetchUserAndTechnicianDetails a w)) = db w
  ∧ reads (snd (Repairs.fetchUserAndTechnicianDetails a w))
    = (reads w ++ lookups a)%list
  ∧ reads (snd (Appointments.fetchUserAndTechnicianDetails a w))
    = (reads w ++ lookups a)%list
  ∧ (embeds_user a → ∀ i, ("users", i) ∉ lookups a)
  ∧ (embeds_technician a → ∀ i, ("technicians", i) ∉ lookups a).
Proof.
  destruct (repairs_fetch_spec a w) as (w1 & -> & Hdb1 & Hr1).
  destruct (appointments_fetch_spec a w) as (w2 & -> & Hdb2 & Hr2).
  simpl. repeat split; try done.
  - intros Hu i. unfold lookups.
    destruct (embeds_user a); [|done].
    destruct (embeds_technician a); simpl; [by apply not_elem_of_nil|].
    destruct (ref (technicianId a)); simpl; [|by apply not_elem_of_nil].
    rewrite list_elem_of_singleton. congruence.
  - intros Ht i. unfold lookups.
    destruct (embeds_technician a); [|done]. rewrite app_nil_r.
    destruct (embeds_user a); simpl; [by apply not_elem_of_nil|].
    destruct (ref (userId a)); simpl; [|by apply not_elem_of_nil].
    rewrite list_elem_of_singleton. congruence.
Qed.

(** On the appointments page an embedded snapshot keeps its display
    fields, and resolving a resolved record again returns it unchanged. *)
Lemma appointments_resolver_respects_embedded a w r :
  returned (Appointments.fetchUserAndTechnicianDetails a w) = Some r →
  (∀ i, userInfo a = Some i → usable i →
        opt_field username (userInfo r) = username i
        ∧ opt_field email (userInfo r) = email i
        ∧ opt_field phone (userInfo r) = phone i)
  ∧ (∀ w2, db w2 = db w →
       returned (Appointments.fetchUserAndTechnicianDetails r w2) = Some r).
Proof.
  destruct (appointments_fetch_spec a w) as (w1 & Hf & _).
  unfold returned. rewrite Hf. simpl. intros [= <-]. split.
  - intros i Hi (Hu & He & Hp). rewrite Hi. simpl.
    apply Is_true_true in Hu, He, Hp.
    unfold or_str. rewrite Hu.
    by rewrite !or_lit_usable.
  - intros w2 Hdb.
    destruct (appointments_fetch_spec
                (Appointments.merged a
                   (Appointments.or_obj
                      (Appointments.or_obj (userInfo a) (userDetails a))
                      (Appointments.displayInfo <$>
                         (if embeds_user a then None
                          else fetched "users" (ref (userId a)) (db w))))
                   (Appointments.or_obj
                      (Appointments.or_obj (technicianInfo a)
                         (technicianDetails a))
                      (Appointments.displayInfo <$>
                         (if embeds_technician a then None
                          else fetched "technicians" (ref (technicianId a))
                                 (db w))))) w2) as (w3 & Hf2 & _).
    rewrite Hf2, Hdb. simpl. f_equal.
    unfold Appointments.merged, spread2, spread4, embeds_user,
      embeds_technician. simpl.
    destruct (userInfo a) as [ui|], (userDetails a) as [ud|],
      (technicianInfo a) as [ti|], (technicianDetails a) as [td|]; simpl;
      rewrite ?displayInfo_idemp; try done;
      repeat match goal with
        | |- context [fetched ?c ?i ?d] => destruct (fetched c i d); simpl
        end;
      by rewrite ?displayInfo_idemp.
Qed.

(** C3, as the code has it.  Either resolver always returns, whatever the
    store answers.  When a record embeds no snapshot of its user and the
    user is absent from the store or cannot be read, the returned record
    has no user snapshot at all (the resolver writes no sentinel into it)
    and the card shows the name "Unknown"; likewise for the technician.
    What is resolved for one entity does not depend on the answers of the
    store about the other. *)
Theorem missing_entity_left_absent (a : Appointment) (w : World) :
  ∃ r r',
    returned (Repairs.fetchUserAndTechnicianDetails a w) = Some r
    ∧ returned (Appointments.fetchUserAndTechnicianDetails a w) = Some r'
    ∧ (embeds_user a = false → missing "users" (ref (userId a)) (db w) →
         userInfo r = None ∧ userDetails r = None
         ∧ Repairs.cardUser r = "Unknown"
         ∧ userInfo r' = None ∧ userDetails r' = None
         ∧ Appointments.userName r' = "Unknown")
    ∧ (embeds_technician a = false →
       missing "technicians" (ref (technicianId a)) (db w) →
         technicianInfo r = None ∧ technicianDetails r = None
         ∧ Repairs.cardTechnician r = "Unknown"
         ∧ technicianInfo r' = None ∧ technicianDetails r' = None
         ∧ Appointments.techName r' = "Unknown")
    ∧ (∀ w2, agree_on "technicians" (db w) (db w2) →
         ∃ r2 r2',
           returned (Repairs.fetchUserAndTechnicianDetails a w2) = Some r2
           ∧ returned (Appointments.fetchUserAndTechnicianDetails a w2)
             = Some r2'
           ∧ technicianInfo r2 = technicianInfo r
           ∧ technicianDetails r2 = technicianDetails r
           ∧ technicianInfo r2' = technicianInfo r'
           ∧ technicianDetails r2' = technicianDetails r')
    ∧ (∀ w2, agree_on "users" (db w) (db w2) →
         ∃ r2 r2',
           returned (Repairs.fetchUserAndTechnicianDetails a w2) = Some r2
           ∧ returned (Appointments.fetchUserAndTechnicianDetails a w2)
             = Some r2'
           ∧ userInfo r2 = userInfo r
           ∧ userDetails r2 = userDetails r
           ∧ userInfo r2' = userInfo r'
           ∧ userDetails r2' = userDetails r').
Proof.
  destruct (repairs_fetch_spec a w) as (w1 & Hr & _).
  destruct (appointments_fetch_spec a w) as (w1' & Ha & _).
  eexists _, _. unfold returned. rewrite Hr, Ha. simpl.
  split; [done|]. split; [done|].
  split; [|split; [|split]].
  - unfold missing. intros Hemb ->. rewrite Hemb. simpl.
    unfold embeds_user in Hemb. apply orb_false_elim in Hemb as [Hi Hd].
    apply bool_decide_eq_false in Hi, Hd.
    rewrite <- eq_None_not_Some in Hi, Hd.
    unfold Repairs.cardUser, Appointments.userName. simpl.
    by rewrite Hi, Hd.
  - unfold missing. intros Hemb ->. rewrite Hemb. simpl.
    unfold embeds_technician in Hemb.
    apply orb_false_elim in Hemb as [Hi Hd].
    apply bool_decide_eq_false in Hi, Hd.
    rewrite <- eq_None_not_Some in Hi, Hd.
    unfold Repairs.cardTechnician, Appointments.techName. simpl.
    by rewrite Hi, Hd.
  - intros w2 Hagree.
    destruct (repairs_fetch_spec a w2) as (v & Hr2 & _).
    destruct (appointments_fetch_spec a w2) as (v' & Ha2 & _).
    eexists _, _. rewrite Hr2, Ha2. simpl.
    split; [done|]. split; [done|].
    by rewrite (Hagree (ref (technicianId a))).
  - intros w2 Hagree.
    destruct (repairs_fetch_spec a w2) as (v & Hr2 & _).
    destruct (appointments_fetch_spec a w2) as (v' & Ha2 & _).
    eexists _, _. rewrite Hr2, Ha2. simpl.
    split; [done|]. split; [done|].
    by rewrite (Hagree (ref (userId a))).
Qed.

Lemma missing_entity_left_absent_witness :
  ∃ r, returned (Repairs.fetchUserAndTechnicianDetails Samples.orphan
                   (fresh Samples.db1)) = Some r
       ∧ userInfo r = None
       ∧ Repairs.cardUser r = "Unknown"
       ∧ technicianInfo r = None.
Proof.
  destruct (missing_entity_left_absent Samples.orphan (fresh Samples.db1))
    as (r & r' & Hr & _ & Hu & Ht & _).
  exists r. split; [exact Hr|].
  destruct Hu as (Hi & _ & Hc & _); [reflexivity | by vm_compute |].
  destruct Ht as (Hti & _); [reflexivity | by vm_compute |].
  by repeat split.
Defined.

(** The claim of C3 fails as stated: for a record whose user is not in the
    store, the resolver of the repairs page returns no user snapshot, so
    no display field of the record holds the sentinel. *)
Lemma repairs_missing_user_gets_no_sentinel :
  missing "users" (ref (userId Samples.orphan)) Samples.db1
  ∧ ∃ r, returned (Repairs.fetchUserAndTechnicianDetails Samples.orphan
                     (fresh Samples.db1)) = Some r
         ∧ userInfo r = None ∧ userDetails r = None
         ∧ opt_field username (userInfo r) ≠ Some "Unknown"
         ∧ opt_field name (userDetails r) ≠ Some "Unknown".
Proof.
  split; [by vm_compute|].
  eexists. split; [by vm_compute|]. by repeat split.
Qed.

(** C2 at two inputs of the repairs page.  A record that embeds the user
    snapshot of "alice" comes back, with no read of the user, carrying the
    sentinel snapshot ("Unknown", "N/A", "N/A") in its place; and a raw
    record resolved against a store that has its user changes again when
    the resolver is applied to the resolved record. *)
Theorem repairs_resolver_overwrites_embedded_snapshot :
  (opt_field username (userInfo Samples.embedded) = Some "alice"
   ∧ ∃ r v, Repairs.fetchUserAndTechnicianDetails Samples.embedded
              (fresh Samples.db1) = (Ok r, v)
            ∧ reads v = [("technicians", "t1")]
            ∧ userInfo r = Some unknownInfo)
  ∧ (∃ r1 r2,
       returned (Repairs.fetchUserAndTechnicianDetails Samples.raw
                   (fresh Samples.db1)) = Some r1
       ∧ returned (Repairs.fetchUserAndTechnicianDetails r1
                     (fresh Samples.db1)) = Some r2
       ∧ opt_field username (userInfo r1) = Some "alice"
       ∧ opt_field username (userInfo r2) = Some "Unknown"
       ∧ r2 ≠ r1).
Proof.
  split.
  - split; [done|]. eexists _, _. split; [by vm_compute|]. by split.
  - eexists _, _. split; [by vm_compute|]. split; [by vm_compute|].
    by repeat split.
Qed.

End resolver.

(** ** Snapshots that race *)

Section race.
Import JS Terms Store.

Lemma repairs_all_spec xs w :
  ∃ w', all Repairs.fetchUserAndTechnicianDetails xs w
        = (Ok (resolvedRepair (db w) <$> xs), w')
        ∧ db w' = db w.
Proof.
  revert w. induction xs as [|x xs IH]; intros w; simpl.
  - by exists w.
  - destruct (repairs_fetch_spec x w) as (w1 & Hx & Hdb1 & _).
    destruct (IH w1) as (w2 & Hxs & Hdb2).
    exists w2. unfold bind. rewrite Hx, Hxs, Hdb1. simpl.
    split; [done|congruence].
Qed.

Lemma appointments_all_spec xs w :
  ∃ w', all Appointments.fetchUserAndTechnicianDetails xs w
        = (Ok (resolvedAppointment (db w) <$> xs), w')
        ∧ db w' = db w.
Proof.
  revert w. induction xs as [|x xs IH]; intros w; simpl.
  - by exists w.
  - destruct (appointments_fetch_spec x w) as (w1 & Hx & Hdb1 & _).
    destruct (IH w1) as (w2 & Hxs & Hdb2).
    exists w2. unfold bind. rewrite Hx, Hxs, Hdb1. simpl.
    split; [done|congruence].
Qed.

(** A delivery with records starts a pass and leaves the view alone. *)
Lemma repairs_step_snapshot S1 p :
  S1 ≠ [] →
  ∃ w', Repairs.step (Repairs.Snapshot S1) p
        = Repairs.mkPage (Repairs.view p) w' (S (Repairs.delivered p))
            (<[S (Repairs.delivered p)
               := resolvedRepair (db (Repairs.world p)) <$> S1]>
               (Repairs.passes p))
        ∧ db w' = db (Repairs.world p).
Proof.
  intros Hne. simpl.
  destruct S1 as [|x xs]; [done|]. cbn [length Nat.eqb].
  destruct (repairs_all_spec (x :: xs) (Repairs.world p)) as (w' & -> & Hdb).
  by exists w'.
Qed.

Lemma appointments_step_snapshot S1 p :
  ∃ w', Appointments.step (Appointments.Snapshot S1) p
        = Appointments.mkPage
            (Appointments.setError None (Appointments.view p)) w'
            (S (Appointments.delivered p))
            (<[S (Appointments.delivered p)
               := resolvedAppointment (db (Appointments.world p)) <$> S1]>
               (Appointments.passes p))
        ∧ db w' = db (Appointments.world p).
Proof.
  simpl.
  destruct (appointments_all_spec S1 (Appointments.world p))
    as (w' & -> & Hdb).
  by exists w'.
Qed.

(** A pass that resumes stores its result, whatever was delivered since. *)
Lemma repairs_step_settled k rs v w n ps :
  ps !! k = Some rs →
  Repairs.step (Repairs.Settled k) (Repairs.mkPage v w n ps)
  = Repairs.mkPage (Repairs.setLoading false (Repairs.setRepairs rs v))
      w n (delete k ps).
Proof. intros H. simpl. by rewrite H. Qed.

Lemma appointments_step_settled k rs v w n ps :
  ps !! k = Some rs →
  Appointments.step (Appointments.Settled k) (Appointments.mkPage v w n ps)
  = Appointments.mkPage
      (Appointments.setLoading false (Appointments.setAppointments rs v))
      w n (delete k ps).
Proof. intros H. simpl. by rewrite H. Qed.

Ltac deliver_repairs S1 H :=
  match goal with
  | |- context [Repairs.step (Repairs.Snapshot S1) ?p] =>
      let w := fresh "w" in
      let Hdb := fresh "Hdb" in
      destruct (repairs_step_snapshot S1 p H) as (w & -> & Hdb);
      cbn [Repairs.world Repairs.view Repairs.delivered Repairs.passes]
        in Hdb |- *
  end.

Ltac deliver_appointments S1 :=
  match goal with
  | |- context [Appointments.step (Appointments.Snapshot S1) ?p] =>
      let w := fresh "w" in
      let Hdb := fresh "Hdb" in
      destruct (appointments_step_snapshot S1 p) as (w & -> & Hdb);
      cbn [Appointments.world Appointments.view Appointments.delivered
           Appointments.passes] in Hdb |- *
  end.

Ltac settle lem :=
  erewrite lem
    by (rewrite ?lookup_delete_ne, ?lookup_insert_ne by lia;
        apply lookup_insert_eq).

Lemma repairs_two_deliveries (p : Repairs.Page) (S1 S2 : list Appointment) :
  S1 ≠ [] → S2 ≠ [] →
  let n := Repairs.delivered p in
  let d := db (Repairs.world p) in
  let stored es := Repairs.repairs (Repairs.view (Repairs.run es p)) in
  stored [Repairs.Snapshot S1; Repairs.Settled (S n);
          Repairs.Snapshot S2; Repairs.Settled (S (S n))]
  = resolvedRepair d <$> S2
  ∧ stored [Repairs.Snapshot S1; Repairs.Snapshot S2;
            Repairs.Settled (S n); Repairs.Settled (S (S n))]
    = resolvedRepair d <$> S2
  ∧ stored [Repairs.Snapshot S1; Repairs.Snapshot S2;
            Repairs.Settled (S (S n)); Repairs.Settled (S n)]
    = resolvedRepair d <$> S1.
Proof.
  intros H1 H2 n d stored. subst n d stored. unfold Repairs.run.
  cbn [foldl]. repeat split.
  - deliver_repairs S1 H1. settle repairs_step_settled.
    deliver_repairs S2 H2. settle repairs_step_settled.
    simpl. congruence.
  - deliver_repairs S1 H1. deliver_repairs S2 H2.
    settle repairs_step_settled. settle repairs_step_settled.
    simpl. congruence.
  - deliver_repairs S1 H1. deliver_repairs S2 H2.
    settle repairs_step_settled. settle repairs_step_settled.
    simpl. congruence.
Qed.

Lemma appointments_two_deliveries
    (p : Appointments.Page) (S1 S2 : list Appointment) :
  let n := Appointments.delivered p in
  let d := db (Appointments.world p) in
  let stored es :=
    Appointments.appointments (Appointments.view (Appointments.run es p)) in
  stored [Appointments.Snapshot S1; Appointments.Settled (S n);
          Appointments.Snapshot S2; Appointments.Settled (S (S n))]
  = resolvedAppointment d <$> S2
  ∧ stored [Appointments.Snapshot S1; Appointments.Snapshot S2;
            Appointments.Settled (S n); Appointments.Settled (S (S n))]
    = resolvedAppointment d <$> S2
  ∧ stored [Appointments.Snapshot S1; Appointments.Snapshot S2;
            Appointments.Settled (S (S n)); Appointments.Settled (S n)]
    = resolvedAppointment d <$> S1.
Proof.
  intros n d stored. subst n d stored. unfold Appointments.run.
  cbn [foldl]. repeat split.
  - deliver_appointments S1. settle appointments_step_settled.
    deliver_appointments S2. settle appointments_step_settled.
    simpl. congruence.
  - deliver_appointments S1. deliver_appointments S2.
    settle appointments_step_settled. settle appointments_step_settled.
    simpl. congruence.
  - deliver_appointments S1. deliver_appointments S2.
    settle appointments_step_settled. settle appointments_step_settled.
    simpl. congruence.
Qed.

(** Whatever the order of deliveries and resumptions, the stored set is
    empty or the resolved form of one delivered snapshot, as a whole. *)
Lemma repairs_stored_whole_snapshot d es :
  let p := Repairs.run es (Repairs.initial d) in
  db (Repairs.world p) = d
  ∧ (∀ k rs, Repairs.passes p !! k = Some rs →
       ∃ S1, Repairs.Snapshot S1 ∈ es ∧ rs = resolvedRepair d <$> S1)
  ∧ (Repairs.repairs (Repairs.view p) = []
     ∨ ∃ S1, Repairs.Snapshot S1 ∈ es
             ∧ Repairs.repairs (Repairs.view p) = resolvedRepair d <$> S1).
Proof.
  induction es as [|e es IH] using rev_ind; simpl.
  { split; [done|]. split; [|by left]. intros k rs. by rewrite lookup_empty. }
  unfold Repairs.run in *. rewrite foldl_app. cbn [foldl].
  set (p := foldl _ _ es) in *. simpl in IH.
  destruct IH as (Hdb & Hpass & Hview).
  assert (Hmono : ∀ x, x ∈ es → x ∈ es ++ [e]).
  { intros x Hx. apply elem_of_app. by left. }
  assert (Hlast : e ∈ es ++ [e]).
  { apply elem_of_app. right. by apply list_elem_of_singleton. }
  assert (Hview' : Repairs.repairs (Repairs.view p) = []
     ∨ ∃ S1, Repairs.Snapshot S1 ∈ es ++ [e]
             ∧ Repairs.repairs (Repairs.view p) = resolvedRepair d <$> S1).
  { destruct Hview as [|(S1 & ? & ?)]; [by left|right; eauto]. }
  assert (Hpass' : ∀ k rs, Repairs.passes p !! k = Some rs →
       ∃ S1, Repairs.Snapshot S1 ∈ es ++ [e] ∧ rs = resolvedRepair d <$> S1).
  { intros k rs Hk. destruct (Hpass k rs Hk) as (S1 & ? & ?). eauto. }
  clear Hview Hpass.
  destruct e as [S1| k | | term | status].
  - destruct (decide (S1 = [])) as [->|Hne].
    { simpl. split; [done|]. split; [done|by left]. }
    destruct (repairs_step_snapshot S1 p Hne) as (w & -> & Hw). simpl.
    split; [congruence|]. split; [|done].
    intros k rs. rewrite lookup_insert. case_decide; [|by apply Hpass'].
    intros [= <-]. exists S1. by rewrite Hdb.
  - simpl. destruct (Repairs.passes p !! k) as [rs|] eqn:Hk; simpl; [|done].
    split; [done|]. split; [|right; by apply Hpass' in Hk].
    intros k' rs'. rewrite lookup_delete_Some. intros [_ ?]. eauto.
  - simpl. by repeat split.
  - simpl. by repeat split.
  - simpl. by repeat split.
Qed.

Lemma appointments_stored_whole_snapshot d es :
  let p := Appointments.run es (Appointments.initial d) in
  db (Appointments.world p) = d
  ∧ (∀ k rs, Appointments.passes p !! k = Some rs →
       ∃ S1, Appointments.Snapshot S1 ∈ es
             ∧ rs = resolvedAppointment d <$> S1)
  ∧ (Appointments.appointments (Appointments.view p) = []
     ∨ ∃ S1, Appointments.Snapshot S1 ∈ es
             ∧ Appointments.appointments (Appointments.view p)
               = resolvedAppointment d <$> S1).
Proof.
  induction es as [|e es IH] using rev_ind; simpl.
  { split; [done|]. split; [|by left]. intros k rs. by rewrite lookup_empty. }
  unfold Appointments.run in *. rewrite foldl_app. cbn [foldl].
  set (p := foldl _ _ es) in *. simpl in IH.
  destruct IH as (Hdb & Hpass & Hview).
  assert (Hlast : e ∈ es ++ [e]).
  { apply elem_of_app. right. by apply list_elem_of_singleton. }
  assert (Hview' : Appointments.appointments (Appointments.view p) = []
     ∨ ∃ S1, Appointments.Snapshot S1 ∈ es ++ [e]
             ∧ Appointments.appointments (Appointments.view p)
               = resolvedAppointment d <$> S1).
  { destruct Hview as [|(S1 & ? & ?)]; [by left|right].
    exists S1. split; [|done]. apply elem_of_app. by left. }
  assert (Hpass' : ∀ k rs, Appointments.passes p !! k = Some rs →
       ∃ S1, Appointments.Snapshot S1 ∈ es ++ [e]
             ∧ rs = resolvedAppointment d <$> S1).
  { intros k rs Hk. destruct (Hpass k rs Hk) as (S1 & ? & ?).
    exists S1. split; [|done]. apply elem_of_app. by left. }
  clear Hview Hpass.
  destruct e as [S1| k | | term | status].
  - destruct (appointments_step_snapshot S1 p) as (w & -> & Hw). simpl.
    split; [congruence|]. split; [|done].
    intros k rs. rewrite lookup_insert. case_decide; [|by apply Hpass'].
    intros [= <-]. exists S1. by rewrite Hdb.
  - simpl. destruct (Appointments.passes p !! k) as [rs|] eqn:Hk; simpl;
      [|done].
    split; [done|]. split; [|right; by apply Hpass' in Hk].
    intros k' rs'. rewrite lookup_delete_Some. intros [_ ?]. eauto.
  - simpl. by repeat split.
  - simpl. by repeat split.
  - simpl. by repeat split.
Qed.

(** C1, as the code has it.  A resolution pass carries no tag of the
    snapshot it belongs to: when it resumes it stores its result.  So for
    snapshots S1 then S2, delivered in that order with records in each,
    once both passes have completed the stored set is the resolved form of
    the snapshot whose pass completed last: of S2 when the passes complete
    in delivery order, of S1 when the pass of S1 is the slower one.  At any
    moment the stored set is empty or the resolved form of one delivered
    snapshot as a whole, never a mix of two. *)
Theorem last_settled_pass_wins
    (p : Repairs.Page) (q : Appointments.Page) (S1 S2 : list Appointment) :
  S1 ≠ [] → S2 ≠ [] →
  let n := Repairs.delivered p in
  let m := Appointments.delivered q in
  let stored es := Repairs.repairs (Repairs.view (Repairs.run es p)) in
  let stored' es :=
    Appointments.appointments (Appointments.view (Appointments.run es q)) in
  (stored [Repairs.Snapshot S1; Repairs.Settled (S n);
           Repairs.Snapshot S2; Repairs.Settled (S (S n))]
   = resolvedRepair (db (Repairs.world p)) <$> S2
   ∧ stored [Repairs.Snapshot S1; Repairs.Snapshot S2;
             Repairs.Settled (S n); Repairs.Settled (S (S n))]
     = resolvedRepair (db (Repairs.world p)) <$> S2
   ∧ stored [Repairs.Snapshot S1; Repairs.Snapshot S2;
             Repairs.Settled (S (S n)); Repairs.Settled (S n)]
     = resolvedRepair (db (Repairs.world p)) <$> S1)
  ∧ (stored' [Appointments.Snapshot S1; Appointments.Settled (S m);
              Appointments.Snapshot S2; Appointments.Settled (S (S m))]
     = resolvedAppointment (db (Appointments.world q)) <$> S2
     ∧ stored' [Appointments.Snapshot S1; Appointments.Snapshot S2;
                Appointments.Settled (S m); Appointments.Settled (S (S m))]
       = resolvedAppointment (db (Appointments.world q)) <$> S2
     ∧ stored' [Appointments.Snapshot S1; Appointments.Snapshot S2;
                Appointments.Settled (S (S m)); Appointments.Settled (S m)]
       = resolvedAppointment (db (Appointments.world q)) <$> S1)
  ∧ (∀ d es,
       let r := Repairs.repairs
                  (Repairs.view (Repairs.run es (Repairs.initial d))) in
       r = [] ∨ ∃ S0, Repairs.Snapshot S0 ∈ es ∧ r = resolvedRepair d <$> S0)
  ∧ (∀ d es,
       let r := Appointments.appointments
                  (Appointments.view
                     (Appointments.run es (Appointments.initial d))) in
       r = [] ∨ ∃ S0, Appointments.Snapshot S0 ∈ es
                      ∧ r = resolvedAppointment d <$> S0).
Proof.
  intros H1 H2 n m stored stored'.
  split; [by apply repairs_two_deliveries|].
  split; [by apply appointments_two_deliveries|].
  split.
  - intros d es. apply repairs_stored_whole_snapshot.
  - intros d es. apply appointments_stored_whole_snapshot.
Qed.

Lemma last_settled_pass_wins_witness :
  Repairs.repairs
    (Repairs.view
       (Repairs.run [Repairs.Snapshot [Samples.raw];
                     Repairs.Snapshot [Samples.orphan];
                     Repairs.Settled 1; Repairs.Settled 2]
          (Repairs.initial Samples.db1)))
  = resolvedRepair Samples.db1 <$> [Samples.orphan].
Proof.
  apply (last_settled_pass_wins (Repairs.initial Samples.db1)
           (Appointments.initial Samples.db1)
           [Samples.raw] [Samples.orphan]); discriminate.
Defined.

(** The claim of C1 fails on both pages: S1 and S2 are delivered in that
    order, the pass of S2 resumes first and the pass of S1 after it; both
    have completed, and the stored set is the resolved form of the stale
    S1. *)
Lemma stale_pass_overwrites_newer_snapshot :
  (Repairs.passes (Repairs.run Samples.raceR (Repairs.initial Samples.db1))
   = ∅
   ∧ Repairs.repairs
       (Repairs.view (Repairs.run Samples.raceR (Repairs.initial Samples.db1)))
     = resolvedRepair Samples.db1 <$> [Samples.raw]
   ∧ Repairs.repairs
       (Repairs.view (Repairs.run Samples.raceR (Repairs.initial Samples.db1)))
     ≠ resolvedRepair Samples.db1 <$> [Samples.orphan])
  ∧ (Appointments.passes
       (Appointments.run Samples.raceA (Appointments.initial Samples.db1))
     = ∅
     ∧ Appointments.appointments
         (Appointments.view
            (Appointments.run Samples.raceA
               (Appointments.initial Samples.db1)))
       = resolvedAppointment Samples.db1 <$> [Samples.raw]
     ∧ Appointments.appointments
         (Appointments.view
            (Appointments.run Samples.raceA
               (Appointments.initial Samples.db1)))
       ≠ resolvedAppointment Samples.db1 <$> [Samples.orphan]).
Proof. repeat split; by vm_compute. Qed.

End race.

(** ** The soft delete of the freelance page *)

Section soft_delete.
Import JS Terms Freelance.

Lemma softDelete_lookup now :
  softDelete now !! "isDeleted" = Some (VBool true)
  ∧ softDelete now !! "deletedAt" = Some (VStr now)
  ∧ softDelete now !! "deletedBy" = Some (VStr "admin")
  ∧ ∀ k, k ≠ "isDeleted" → k ≠ "deletedAt" → k ≠ "deletedBy" →
         softDelete now !! k = None.
Proof.
  unfold softDelete. split; [|split; [|split]].
  - by rewrite lookup_insert_eq.
  - rewrite lookup_insert_ne by done. by rewrite lookup_insert_eq.
  - rewrite !lookup_insert_ne by done. by rewrite lookup_singleton_eq.
  - intros k H1 H2 H3. rewrite !lookup_insert_ne by done.
    by rewrite lookup_singleton_ne.
Qed.

(** A committed merge-write changes the fields it names, in the document
    it names, and nothing else. *)
Lemma mergeWrite_frame uid fields (st : gmap string Technician) :
  (∃ doc, mergeWrite uid fields st !! uid = Some doc
          ∧ (∀ k v, fields !! k = Some v → doc !! k = Some v)
          ∧ (∀ k, fields !! k = None →
                  doc !! k = default ∅ (st !! uid) !! k))
  ∧ (∀ u, u ≠ uid → mergeWrite uid fields st !! u = st !! u).
Proof.
  unfold mergeWrite. split.
  - eexists. split; [apply lookup_insert_eq|]. split.
    + intros k v Hk. by apply lookup_union_Some_l.
    + intros k Hk. by apply lookup_union_r.
  - intros u Hu. by rewrite lookup_insert_ne.
Qed.

(** The three steps of a confirmed, successful delete. *)
Lemma delete_confirmed_run p f uid now :
  selected p = Some f → gate p = None →
  f !! "uid" = Some (VStr uid) → uid ≠ "" →
  run [ClickDelete; Confirm now; WriteOk (S (length (writes p)))] p
  = mkPage (freelancers p) (loading p) None
      (mergeWrite uid (softDelete now) (store p)) None
      (writes p ++ [(uid, softDelete now)])
      (delete (S (length (writes p)))
         (<[S (length (writes p)) := (uid, softDelete now)]> (inflight p)))
      (alerts p) (console p).
Proof.
  intros Hsel Hgate Huid Hne. unfold run. cbn [foldl].
  assert (Hprop : prop f "uid" = VStr uid) by (unfold prop; by rewrite Huid).
  assert (Htr : truthy (VStr uid) = true) by by destruct uid.
  unfold step at 3. rewrite Hsel, Hgate, Hprop, Htr. cbn [negb].
  unfold step at 2. cbn [openGate closeGate gate writes]. rewrite Hprop.
  cbn [freelancers loading selected store gate writes inflight alerts console].
  unfold step. cbn [inflight]. by rewrite lookup_insert_eq.
Qed.

Lemma softDelete_dom now :
  dom (softDelete now) = ({[ "isDeleted"; "deletedAt"; "deletedBy" ]} : gset string).
Proof.
  unfold softDelete. rewrite !dom_insert_L, dom_singleton_L. set_solver.
Qed.

Lemma toRecord_uid i (data : Technician) :
  toRecord (i, data) !! "uid"
  = Some (default (VStr i) (data !! "uid")).
Proof.
  unfold toRecord. simpl. rewrite lookup_union.
  rewrite lookup_singleton_eq. by destruct (data !! "uid").
Qed.

(** C6, as the code has it.  When the user confirms the deletion of the
    selected record, whose [uid] is a document id, and the write succeeds,
    exactly one merge-write was issued, to the document that [uid] names,
    with the three fields isDeleted = true, deletedAt = the time of the
    call and deletedBy = "admin"; in the store those three fields of that
    document have these values, every other field of it and every other
    document is unchanged, and the selection is cleared.  The document
    written is the one the record was read from whenever the stored data
    has no [uid] field of its own, or one equal to the document id: then
    every other field of the technician's document is as it was stored. *)
Theorem soft_delete_sets_three_fields
    (p : Page) (f : Technician) (uid now : string) :
  selected p = Some f → gate p = None →
  f !! "uid" = Some (VStr uid) → uid ≠ "" → document_id uid = true →
  let p' := run [ClickDelete; Confirm now; WriteOk (S (length (writes p)))] p in
  writes p' = writes p ++ [(uid, softDelete now)]
  ∧ dom (softDelete now)
    = ({[ "isDeleted"; "deletedAt"; "deletedBy" ]} : gset string)
  ∧ (∃ doc, store p' !! uid = Some doc
            ∧ doc !! "isDeleted" = Some (VBool true)
            ∧ doc !! "deletedAt" = Some (VStr now)
            ∧ doc !! "deletedBy" = Some (VStr "admin")
            ∧ ∀ k, k ∉ dom (softDelete now) →
                   doc !! k = default ∅ (store p !! uid) !! k)
  ∧ (∀ u, u ≠ uid → store p' !! u = store p !! u)
  ∧ selected p' = None
  ∧ (∀ i data,
       f = toRecord (i, data) → store p !! i = Some data →
       data !! "uid" = None ∨ data !! "uid" = Some (VStr i) →
       uid = i
       ∧ ∃ doc, store p' !! i = Some doc
                ∧ ∀ k, k ∉ dom (softDelete now) → doc !! k = data !! k).
Proof.
  intros Hsel Hgate Huid Hne _ p'. subst p'.
  rewrite (delete_confirmed_run p f uid now) by done. simpl.
  destruct (softDelete_lookup now) as (Hd & Ha & Hb & _).
  destruct (mergeWrite_frame uid (softDelete now) (store p))
    as ((doc & Hdoc & Hset & Hkeep) & Hother).
  split; [done|]. split; [apply softDelete_dom|].
  split; [|split; [done|split; [done|]]].
  - exists doc. split; [done|].
    split; [by apply Hset|]. split; [by apply Hset|]. split; [by apply Hset|].
    intros k Hk. by apply Hkeep, not_elem_of_dom.
  - intros i data -> Hst Hown.
    assert (uid = i) as ->.
    { rewrite toRecord_uid in Huid.
      by destruct Hown as [Ho|Ho]; rewrite Ho in Huid; simplify_eq/=. }
    split; [done|]. exists doc. split; [done|].
    intros k Hk. rewrite Hkeep by by apply not_elem_of_dom.
    by rewrite Hst.
Qed.

Lemma soft_delete_sets_three_fields_witness :
  selected
    (run [ClickDelete; Confirm Samples.noon;
          WriteOk (S (length (writes Samples.page0)))] Samples.page0)
  = None
  ∧ ∃ doc,
      store (run [ClickDelete; Confirm Samples.noon;
                  WriteOk (S (length (writes Samples.page0)))] Samples.page0)
        !! "t1" = Some doc
      ∧ ∀ k, k ∉ dom (softDelete Samples.noon) →
             doc !! k = snd Samples.tech1 !! k.
Proof.
  destruct (soft_delete_sets_three_fields Samples.page0
              (toRecord Samples.tech1) "t1" Samples.noon)
    as (_ & _ & _ & _ & Hsel & Hown).
  - reflexivity.
  - reflexivity.
  - by vm_compute.
  - discriminate.
  - reflexivity.
  - split; [exact Hsel|].
    apply (Hown "t1" (snd Samples.tech1)).
    + reflexivity.
    + by vm_compute.
    + left. by vm_compute.
Defined.

(** The claim of C6 fails for a record whose stored data names another
    document: the record read from "t1" carries the uid "t2"; it is listed
    and selected, its deletion is confirmed and the write succeeds; the
    one write went to "t2", whose document is now marked deleted, and the
    document "t1" is as it was. *)
Lemma soft_delete_follows_stored_uid :
  let f := toRecord Samples.misfiled in
  let p := run [Snapshot [Samples.misfiled; Samples.neighbour]; Select f]
             (initial Samples.store1) in
  let p' := run [ClickDelete; Confirm Samples.noon;
                 WriteOk (S (length (writes p)))] p in
  f ∈ freelancers p
  ∧ selected p = Some f
  ∧ store p !! "t1" = Some (snd Samples.misfiled)
  ∧ writes p' = [("t2", softDelete Samples.noon)]
  ∧ store p' !! "t1" = store p !! "t1"
  ∧ (∃ doc, store p' !! "t2" = Some doc
            ∧ doc !! "isDeleted" = Some (VBool true))
  ∧ selected p' = None.
Proof.
  intros f p p'.
  assert (Hrun : p' = mkPage (freelancers p) (loading p) None
      (mergeWrite "t2" (softDelete Samples.noon) (store p)) None
      (writes p ++ [("t2", softDelete Samples.noon)])
      (delete (S (length (writes p)))
         (<[S (length (writes p)) := ("t2", softDelete Samples.noon)]>
            (inflight p)))
      (alerts p) (console p)).
  { apply (delete_confirmed_run p f "t2" Samples.noon);
      [reflexivity | reflexivity | | discriminate].
    etrans; [apply (toRecord_uid "t1" (snd Samples.misfiled))|].
    by vm_compute. }
  destruct (mergeWrite_frame "t2" (softDelete Samples.noon) (store p))
    as ((doc & Hdoc & Hset & _) & Hother).
  destruct (softDelete_lookup Samples.noon) as (Hd & _).
  rewrite Hrun. cbn [writes store selected].
  split; [|split; [reflexivity|split; [|split; [reflexivity|split;
    [|split; [|reflexivity]]]]]].
  - apply list_elem_of_filter. split; [by vm_compute|left].
  - apply (lookup_insert_eq (M:=gmap string)).
  - by apply Hother.
  - exists doc. split; [done|]. by apply Hset.
Qed.

Lemma quiet_step e p :
  (∀ now, e ≠ Confirm now) → inflight p = ∅ →
  writes (step e p) = writes p ∧ store (step e p) = store p
  ∧ inflight (step e p) = ∅.
Proof.
  intros Hne Hin. destruct e; simpl; try done.
  - destruct (selected p), (gate p); try done.
    by destruct (negb _).
  - by destruct (Hne now).
  - by rewrite Hin, lookup_empty.
  - by rewrite Hin, lookup_empty.
Qed.

Lemma no_write_before_confirm es : ∀ p,
  (∀ now, Confirm now ∉ es) → inflight p = ∅ →
  writes (run es p) = writes p ∧ store (run es p) = store p.
Proof.
  induction es as [|e es IH]; intros p Hne Hin; [done|].
  unfold run in *. cbn [foldl].
  destruct (quiet_step e p) as (Hw & Hs & Hi); [|done|].
  { intros now ->. apply (Hne now). left. }
  destruct (IH (step e p)) as [Hw' Hs']; [|done|].
  { intros now Hin'. apply (Hne now). by right. }
  split; congruence.
Qed.

(** The three steps of a confirmed delete whose write fails. *)
Lemma delete_failed_run p f uid now :
  selected p = Some f → gate p = None →
  f !! "uid" = Some (VStr uid) → uid ≠ "" →
  run [ClickDelete; Confirm now; WriteFailed (S (length (writes p)))] p
  = mkPage (freelancers p) (loading p) (Some f) (store p) None
      (writes p ++ [(uid, softDelete now)])
      (delete (S (length (writes p)))
         (<[S (length (writes p)) := (uid, softDelete now)]> (inflight p)))
      (alerts p ++ ["Failed to delete. Check console for details."])
      (console p ++ ["Failed to delete technician doc:"]).
Proof.
  intros Hsel Hgate Huid Hne. unfold run. cbn [foldl].
  assert (Hprop : prop f "uid" = VStr uid) by (unfold prop; by rewrite Huid).
  assert (Htr : truthy (VStr uid) = true) by by destruct uid.
  unfold step at 3. rewrite Hsel, Hgate, Hprop, Htr. cbn [negb].
  unfold step at 2. cbn [openGate closeGate gate writes]. rewrite Hprop.
  cbn [freelancers loading selected store gate writes inflight alerts console].
  unfold step. cbn [inflight]. rewrite lookup_insert_eq. simpl.
  by rewrite Hsel.
Qed.

(** C7.  The delete action follows the state machine of the
    specification.  As long as the user has not confirmed, no write is
    issued and the store is as it was.  A delete that is requested and
    then cancelled leaves the page, store and selection included, exactly
    as it was.  When the write fails, the store is unchanged, the
    technician stays selected, the dialog is closed and one alert tells
    the user. *)
Theorem delete_gate_state_machine :
  (∀ es p, (∀ now, Confirm now ∉ es) → inflight p = ∅ →
           writes (run es p) = writes p ∧ store (run es p) = store p)
  ∧ (∀ p f, selected p = Some f → gate p = None →
            truthy (prop f "uid") →
            gate (step ClickDelete p) = Some f
            ∧ run [ClickDelete; Cancel] p = p)
  ∧ (∀ p f uid now,
       selected p = Some f → gate p = None →
       f !! "uid" = Some (VStr uid) → uid ≠ "" →
       let p' := run [ClickDelete; Confirm now;
                      WriteFailed (S (length (writes p)))] p in
       store p' = store p
       ∧ selected p' = Some f
       ∧ gate p' = None
       ∧ alerts p'
         = alerts p ++ ["Failed to delete. Check console for details."]).
Proof.
  split; [exact no_write_before_confirm|]. split.
  - intros p f Hsel Hgate Huid. apply Is_true_true in Huid.
    unfold run. simpl. rewrite Hsel, Hgate, Huid. simpl.
    split; [done|]. destruct p; simpl in *. by subst.
  - intros p f uid now Hsel Hgate Huid Hne p'. subst p'.
    by rewrite (delete_failed_run p f uid now).
Qed.

Lemma delete_gate_state_machine_witness :
  store (run [Select (toRecord Samples.tech1); ClickDelete; Cancel; Close]
           Samples.page0) = store Samples.page0
  ∧ run [ClickDelete; Cancel] Samples.page0 = Samples.page0
  ∧ alerts (run [ClickDelete; Confirm Samples.noon;
                 WriteFailed (S (length (writes Samples.page0)))]
              Samples.page0)
    = alerts Samples.page0 ++ ["Failed to delete. Check console for details."].
Proof.
  destruct delete_gate_state_machine as (Hquiet & Hcancel & Hfail).
  split; [|split].
  - apply Hquiet; [|reflexivity].
    intros now Hin.
    repeat (apply elem_of_cons in Hin as [Heq|Hin]; [discriminate Heq|]).
    by apply elem_of_nil in Hin.
  - apply (Hcancel Samples.page0 (toRecord Samples.tech1));
      reflexivity || by vm_compute.
  - apply (Hfail Samples.page0 (toRecord Samples.tech1) "t1" Samples.noon);
      [reflexivity | reflexivity | by vm_compute | discriminate].
Defined.

End soft_delete.

(** ** Subscription errors *)

Section subscription_error.
Import JS Terms.

Lemma rendered_list_cards {A} (l : list A) :
  rendered_list (if (length l =? 0)%nat then EmptyState else Cards l) = l.
Proof. by destruct l. Qed.

Lemma no_error_in_list {A} (l : list A) :
  shows_error_with_retry
    (if (length l =? 0)%nat then EmptyState else Cards l) = false
  ∧ shows_spinner
      (if (length l =? 0)%nat then EmptyState else Cards l) = false.
Proof. by destruct l. Qed.

(** C8, as the code has it.  On a subscription error every page stops
    showing the spinner.  The appointments page then shows, instead of the
    list, an inline error with a retry control.  The freelance and repairs
    pages only log the error: they show no error and no retry control and
    go on rendering the set stored before, which is the empty-state
    placeholder when no snapshot was stored yet. *)
Theorem subscription_error_clears_loading :
  (∀ p, let p' := Freelance.step Freelance.SnapshotError p in
        Freelance.loading p' = false
        ∧ shows_spinner (Freelance.render p') = false
        ∧ shows_error_with_retry (Freelance.render p') = false
        ∧ rendered_list (Freelance.render p') = Freelance.freelancers p)
  ∧ (∀ p, let v' := Repairs.view (Repairs.step Repairs.SnapshotError p) in
          Repairs.loading v' = false
          ∧ shows_spinner (Repairs.render v') = false
          ∧ shows_error_with_retry (Repairs.render v') = false
          ∧ rendered_list (Repairs.render v')
            = Repairs.filteredRepairs (Repairs.view p))
  ∧ (∀ p, let v' := Appointments.view
                      (Appointments.step Appointments.SnapshotError p) in
          Appointments.loading v' = false
          ∧ Appointments.render v'
            = ErrorState "Failed to connect to database" true
          ∧ shows_spinner (Appointments.render v') = false
          ∧ shows_error_with_retry (Appointments.render v') = true
          ∧ rendered_list (Appointments.render v') = [])
  ∧ (∀ st d,
       Freelance.render
         (Freelance.step Freelance.SnapshotError (Freelance.initial st))
       = EmptyState
       ∧ Repairs.render
           (Repairs.view
              (Repairs.step Repairs.SnapshotError (Repairs.initial d)))
         = EmptyState).
Proof.
  split; [|split; [|split]].
  - intros p p'. subst p'. unfold Freelance.render. simpl.
    split; [done|].
    destruct (no_error_in_list (Freelance.freelancers p)) as [-> ->].
    by rewrite rendered_list_cards.
  - intros p v'. subst v'. unfold Repairs.render. simpl.
    split; [done|].
    change (Repairs.filteredRepairs _)
      with (Repairs.filteredRepairs (Repairs.view p)).
    destruct (no_error_in_list (Repairs.filteredRepairs (Repairs.view p)))
      as [-> ->].
    by rewrite rendered_list_cards.
  - intros p v'. by subst v'.
  - done.
Qed.

(** The claim of C8 fails on the repairs page: an error that arrives after
    a snapshot was stored brings up no error and no retry control, and the
    list still shows the record stored before. *)
Lemma repairs_error_keeps_stale_list :
  shows_error_with_retry
    (Repairs.render
       (Repairs.view
          (Repairs.run [Repairs.Snapshot [Samples.raw]; Repairs.Settled 1;
                        Repairs.SnapshotError]
             (Repairs.initial Samples.db1)))) = false
  ∧ rendered_list
      (Repairs.render
         (Repairs.view
            (Repairs.run [Repairs.Snapshot [Samples.raw]; Repairs.Settled 1;
                          Repairs.SnapshotError]
               (Repairs.initial Samples.db1))))
    = [resolvedRepair Samples.db1 Samples.raw]
  ∧ rendered_list
      (Repairs.render
         (Repairs.view
            (Repairs.run [Repairs.Snapshot [Samples.raw]; Repairs.Settled 1;
                          Repairs.SnapshotError]
               (Repairs.initial Samples.db1))))
    ≠ [].
Proof. repeat split; by vm_compute. Qed.

End subscription_error.

(** * Further properties *)

(** ** Substrings *)

Section substrings.
Import JS Terms.

Lemma prefix_append t s :
  String.prefix t s = true ↔ ∃ b, s = String.append t b.
Proof.
  revert s. induction t as [|c t IH]; intros s.
  - split; [intros _; by exists s|by destruct s].
  - destruct s as [|c' s]; simpl.
    + split; [done|]. by intros (b & ?).
    + destruct (Ascii.ascii_dec c c') as [->|Hne].
      * rewrite IH. split; intros (b & Hb); exists b; simpl in *; [by rewrite Hb|by injection Hb].
      * split; [done|]. intros (b & [= ? ?]). done.
Qed.

Lemma includes_unfold s t :
  includes s t
  = String.prefix t s
    || match s with EmptyString => false | String _ s' => includes s' t end.
Proof. by destruct s. Qed.

Lemma includes_append s t :
  includes s t = true ↔ ∃ a b, s = String.append a (String.append t b).
Proof.
  induction s as [|c s IH]; rewrite includes_unfold.
  - rewrite orb_false_r, prefix_append. split.
    + intros (b & ->). by exists "", b.
    + intros ([|c a] & b & Hb); [by exists b|done].
  - rewrite orb_true_iff, prefix_append, IH. split.
    + intros [(b & ->)|(a & b & ->)].
      * by exists "", b.
      * by exists (String c a), b.
    + intros ([|c' a] & b & Hb); simpl in Hb.
      * left. by exists b.
      * right. injection Hb as -> ->. by exists a, b.
Qed.

Lemma append_cons x a b :
  String.append (String x a) b = String x (String.append a b).
Proof. reflexivity. Qed.

Lemma append_assoc' a b c :
  String.append (String.append a b) c = String.append a (String.append b c).
Proof.
  induction a as [|x a IH]; [done|]. by rewrite !append_cons, IH.
Qed.

Lemma append_empty_r s : String.append s "" = s.
Proof. induction s as [|x s IH]; [done|]. by rewrite append_cons, IH. Qed.

Lemma includes_refl s : includes s s = true.
Proof.
  apply includes_append. exists "", "".
  change (String.append "" (String.append s "")) with (String.append s "").
  by rewrite append_empty_r.
Qed.

Lemma includes_trans s t u :
  includes s t = true → includes t u = true → includes s u = true.
Proof.
  rewrite !includes_append. intros (a & b & ->) (a' & b' & ->).
  exists (String.append a a'), (String.append b' b).
  by rewrite !append_assoc'.
Qed.

Lemma toLowerCase_append a b :
  toLowerCase (String.append a b)
  = String.append (toLowerCase a) (toLowerCase b).
Proof.
  induction a as [|x a IH]; [done|].
  rewrite append_cons. simpl. by rewrite append_cons, IH.
Qed.

Lemma includes_toLowerCase s t :
  includes s t = true → includes (toLowerCase s) (toLowerCase t) = true.
Proof.
  rewrite !includes_append. intros (a & b & ->).
  exists (toLowerCase a), (toLowerCase b).
  by rewrite !toLowerCase_append.
Qed.

End substrings.

(** ** Searching and filtering *)

Section filters_more.
Import JS Terms Cards.

Lemma includes_empty_r s : includes s "" = true.
Proof. by destruct s. Qed.

Lemma hit_mono sl sl' o :
  includes sl sl' = true → hit sl o = true → hit sl' o = true.
Proof. destruct o as [s|]; [|done]. intros H1 H2. by eapply includes_trans. Qed.

Lemma truthy_and_includes_gen o t :
  truthy (and_includes o t) = str_truthy o && hit t o.
Proof. by destruct o as [[|c s]|]. Qed.

Lemma repairs_matchesSearch_mono r sl sl' :
  includes sl sl' = true →
  truthy (Repairs.matchesSearch r sl) = true →
  truthy (Repairs.matchesSearch r sl') = true.
Proof.
  intros Hinc. unfold Repairs.matchesSearch.
  rewrite !truthy_or, !truthy_opt_includes, !truthy_and_includes_gen.
  rewrite !orb_true_iff, !andb_true_iff.
  pose proof (hit_mono sl sl') as Hm.
  intuition auto.
Qed.

Lemma repairs_keeps_mono r t t' st :
  includes t t' = true →
  truthy (Repairs.keeps t st r) → truthy (Repairs.keeps t' st r).
Proof.
  intros Hinc. apply includes_toLowerCase in Hinc.
  rewrite !Is_true_true. unfold Repairs.keeps.
  destruct (String.eqb st "all").
  - by apply repairs_matchesSearch_mono.
  - rewrite !truthy_and, !andb_true_iff. intros [Hm Hs]. split; [|done].
    by eapply repairs_matchesSearch_mono.
Qed.

Lemma appointments_keeps_mono a t t' st :
  includes t t' = true →
  Appointments.keeps t st a → Appointments.keeps t' st a.
Proof.
  intros Hinc. apply includes_toLowerCase in Hinc.
  rewrite !Is_true_true. unfold Appointments.keeps, Appointments.matchesSearch.
  rewrite !andb_true_iff, !orb_true_iff.
  pose proof (λ s H, includes_trans s _ _ H Hinc) as Ht.
  intuition auto.
Qed.

Lemma filter_sublist_mono {A} (P Q : A → Prop)
    `{!∀ x, Decision (P x), !∀ x, Decision (Q x)} (l : list A) :
  (∀ x, P x → Q x) → filter P l `sublist_of` filter Q l.
Proof.
  intros HPQ. rewrite <- (list_filter_filter_l P Q) by done.
  apply sublist_filter.
Qed.

(** X1.  Typing more of a term never adds a record, on either page: for
    records and terms in ASCII text, the list for a term is a sublist of
    the list for any part of that term. *)
Theorem longer_term_narrows_search
    (records : list Appointment) (term term' status : string) :
  ascii_only term = true →
  Forall (λ r, ascii_record r = true) records →
  includes term term' = true →
  Repairs.filter_by records term status
    `sublist_of` Repairs.filter_by records term' status
  ∧ Appointments.filter_by records term status
      `sublist_of` Appointments.filter_by records term' status.
Proof.
  intros _ _ Hinc. split; apply filter_sublist_mono; intros a.
  - by apply repairs_keeps_mono.
  - by apply appointments_keeps_mono.
Qed.

End filters_more.

Section status_filter.
Import JS Terms Cards Notions.

Lemma repairs_keeps_status r t st :
  String.eqb st "all" = false →
  truthy (Repairs.keeps t st r)
  ↔ truthy (Repairs.keeps t "all" r) ∧ status_global r = Some st.
Proof.
  intros Hst. unfold Repairs.keeps. rewrite Hst. simpl.
  rewrite !Is_true_true, truthy_and, andb_true_iff. simpl.
  by rewrite bool_decide_eq_true.
Qed.

Lemma appointments_keeps_status a t st :
  String.eqb st "all" = false →
  Appointments.keeps t st a
  ↔ Appointments.keeps t "all" a ∧ status_global a = Some st.
Proof.
  intros Hst. unfold Appointments.keeps, Appointments.matchesStatus.
  rewrite Hst. simpl.
  rewrite !Is_true_true, !andb_true_iff, bool_decide_eq_true. tauto.
Qed.

(** X2.  A status filter only removes records from what "all" shows, and what
    it keeps has that status. *)
Theorem status_filter_narrows_all
    (records : list Appointment) (term status : string) :
  status ≠ "all" →
  (Repairs.filter_by records term status
     `sublist_of` Repairs.filter_by records term "all"
   ∧ ∀ r, r ∈ Repairs.filter_by records term status →
          status_global r = Some status)
  ∧ (Appointments.filter_by records term status
       `sublist_of` Appointments.filter_by records term "all"
     ∧ ∀ a, a ∈ Appointments.filter_by records term status →
            status_global a = Some status).
Proof.
  intros Hne. apply String.eqb_neq in Hne.
  unfold Repairs.filter_by, Appointments.filter_by.
  split; split.
  - apply filter_sublist_mono. intros r.
    by intros [? _]%repairs_keeps_status.
  - intros r [[_ ?]%repairs_keeps_status _]%list_elem_of_filter; done.
  - apply filter_sublist_mono. intros a.
    by intros [? _]%appointments_keeps_status.
  - intros a [[_ ?]%appointments_keeps_status _]%list_elem_of_filter; done.
Qed.

(** X3.  What the repairs page shows under "all" is what it shows under its
    three status options together. *)
Theorem repairs_status_options_partition
    (records : list Appointment) (term : string) :
  Forall queried records →
  Repairs.filter_by records term "all"
  ≡ₚ Repairs.filter_by records term "Completed"
     ++ Repairs.filter_by records term "Repairing"
     ++ Repairs.filter_by records term "Testing".
Proof.
  unfold Repairs.filter_by.
  induction 1 as [|r rs Hq _ IH]; [done|].
  assert (Hyes : ∀ st, String.eqb st "all" = false →
            truthy (Repairs.keeps term "all" r) → status_global r = Some st →
            filter (λ x, truthy (Repairs.keeps term st x)) (r :: rs)
            = r :: filter (λ x, truthy (Repairs.keeps term st x)) rs).
  { intros st Hst Hall Hs. rewrite filter_cons, decide_True; [done|].
    by apply repairs_keeps_status. }
  assert (Hno : ∀ st, String.eqb st "all" = false →
            ¬ (truthy (Repairs.keeps term "all" r)
               ∧ status_global r = Some st) →
            filter (λ x, truthy (Repairs.keeps term st x)) (r :: rs)
            = filter (λ x, truthy (Repairs.keeps term st x)) rs).
  { intros st Hst Hneg. rewrite filter_cons, decide_False; [done|].
    by rewrite repairs_keeps_status. }
  rewrite filter_cons.
  destruct (decide (truthy (Repairs.keeps term "all" r))) as [Hall|Hall].
  - destruct Hq as [Hq|[Hq|Hq]].
    + rewrite (Hno "Completed"), (Hyes "Repairing"), (Hno "Testing");
        try done; try (rewrite Hq; by intros [_ [=]]).
      by rewrite IH, Permutation_middle.
    + rewrite (Hno "Completed"), (Hno "Repairing"), (Hyes "Testing");
        try done; try (rewrite Hq; by intros [_ [=]]).
      rewrite IH, !app_assoc. by rewrite Permutation_middle.
    + rewrite (Hyes "Completed"), (Hno "Repairing"), (Hno "Testing");
        try done; try (rewrite Hq; by intros [_ [=]]).
      by rewrite IH.
  - rewrite !Hno; try done; by intros [? _].
Qed.

(** X4.  On the appointments page an empty search under "all" shows every
    stored record. *)
Theorem appointments_empty_search_shows_all (records : list Appointment) :
  Appointments.filter_by records "" "all" = records.
Proof.
  unfold Appointments.filter_by.
  induction records as [|a rs IH]; [done|].
  rewrite filter_cons, IH.
  rewrite decide_True; [done|].
  unfold Appointments.keeps, Appointments.matchesSearch. simpl.
  by rewrite !includes_empty_r.
Qed.

End status_filter.

(** ** What the cards show *)

Section cards.
Import JS Terms Cards Notions.

Lemma or_lit_nonempty a lit : lit ≠ "" → or_lit a lit ≠ "".
Proof. intros Hl. by destruct a as [[|c s]|]. Qed.

(** Where the text of a two- or three-step fallback chain comes from. *)
Lemma or_lit_source a lit :
  or_lit a lit = lit ∨ (a = Some (or_lit a lit) ∧ or_lit a lit ≠ "").
Proof. destruct a as [[|c s]|]; simpl; auto. Qed.

Lemma or_str_source a b :
  or_str a b = b ∨ or_str a b = a.
Proof. unfold or_str. destruct (str_truthy a); auto. Qed.

(** X5.  The rows of a card that have a fallback are never blank: user,
    technician, status, device and issue of a repair card; user,
    technician, device and issue of an appointment card.  (The status
    badge of an appointment card prints the status as it is stored and is
    not among them.) *)
Theorem card_rows_never_blank (r : Appointment) :
  Forall (λ s, s ≠ "")
    [ Repairs.cardUser r; Repairs.cardTechnician r; repairStatus r;
      repairDevice r; repairIssue r;
      Appointments.userName r; Appointments.techName r;
      appointmentDevice r; appointmentIssue r ].
Proof. repeat constructor; by apply or_lit_nonempty. Qed.

Lemma repairs_found_by r s :
  s ≠ "" → Some s ∈ searchable r → truthy (Repairs.keeps s "all" r).
Proof.
  intros Hs Hin. apply Is_true_true. unfold Repairs.keeps. simpl.
  rewrite repairs_matchesSearch_hits by by apply toLowerCase_nonempty.
  apply existsb_exists. exists (Some s). split; [by apply list_elem_of_In|].
  apply includes_refl.
Qed.

(** X6.  On the repairs page, a name, device or issue text that a card shows
    (other than the placeholder of its row) finds that card when it is
    typed into the search box. *)
Theorem repairs_card_text_is_searchable (r : Appointment) :
  (Repairs.cardUser r ≠ "Unknown" →
     r ∈ Repairs.filter_by [r] (Repairs.cardUser r) "all")
  ∧ (Repairs.cardTechnician r ≠ "Unknown" →
       r ∈ Repairs.filter_by [r] (Repairs.cardTechnician r) "all")
  ∧ (repairDevice r ≠ "N/A" →
       r ∈ Repairs.filter_by [r] (repairDevice r) "all")
  ∧ (repairIssue r ≠ "N/A" →
       r ∈ Repairs.filter_by [r] (repairIssue r) "all").
Proof.
  assert (Hkeep : ∀ s, s ≠ "" → Some s ∈ searchable r →
                       r ∈ Repairs.filter_by [r] s "all").
  { intros s Hs Hin. unfold Repairs.filter_by.
    apply list_elem_of_filter. split; [by apply repairs_found_by|left]. }
  unfold Repairs.cardUser, Repairs.cardTechnician, repairDevice, repairIssue,
    searchable in *.
  repeat split; intros Hne;
    match goal with
    | |- _ ∈ Repairs.filter_by _ (or_lit ?a ?lit) _ =>
        destruct (or_lit_source a lit) as [?|[Ha Hs]]; [done|];
        apply Hkeep; [done|]; rewrite <- Ha
    end;
    repeat match goal with
      | |- context [or_str ?a ?b] =>
          destruct (or_str_source a b) as [-> | ->]
      end;
    set_solver.
Qed.

End cards.

Section cards_appointments.
Import JS Terms Cards Notions.

Lemma appointments_found_by a s :
  s ∈ displayed a → a ∈ Appointments.filter_by [a] s "all".
Proof.
  intros Hin. unfold Appointments.filter_by.
  apply list_elem_of_filter. split; [|left].
  apply Is_true_true. unfold Appointments.keeps. simpl.
  rewrite andb_true_r, appointments_matchesSearch_hits.
  apply existsb_exists. exists s. split; [by apply list_elem_of_In|].
  apply includes_refl.
Qed.

Lemma or_lit_same a lit lit' : or_lit a lit ≠ lit → or_lit a lit' = or_lit a lit.
Proof. destruct a as [[|c s]|]; simpl; done. Qed.

(** X7.  On the appointments page, the user and technician names a card shows
    always find that card, and so does its device text unless it is the
    placeholder.  The issue text finds the card when it comes from the
    record's own [issue], or when the diagnosis has no [issueDescription]. *)
Theorem appointments_card_text_is_searchable (a : Appointment) :
  a ∈ Appointments.filter_by [a] (Appointments.userName a) "all"
  ∧ a ∈ Appointments.filter_by [a] (Appointments.techName a) "all"
  ∧ (appointmentDevice a ≠ "N/A" →
       a ∈ Appointments.filter_by [a] (appointmentDevice a) "all")
  ∧ (appointmentIssue a ≠ "N/A" →
     str_truthy (issue a)
     ∨ ¬ str_truthy (opt_field issueDescription (diagnosisData a)) →
       a ∈ Appointments.filter_by [a] (appointmentIssue a) "all").
Proof.
  split; [|split; [|split]].
  - apply appointments_found_by. left.
  - apply appointments_found_by. right. left.
  - intros Hne. apply appointments_found_by. unfold displayed.
    replace (appointmentDevice a) with (Appointments.deviceTypeOf a);
      [do 2 right; left|].
    by apply or_lit_same.
  - intros Hne Hsrc. apply appointments_found_by.
    unfold displayed, appointmentIssue, Appointments.issueOf in *.
    do 3 right.
    destruct (issue a) as [[|c s]|];
      destruct (diagnosisData a)
        as [[cat br mo [[|c1 s1]|] [[|c2 s2]|] [[|c3 s3]|]]|];
      simpl in *; try done; try left;
      destruct Hsrc as [[]|Hd]; by destruct Hd.
Qed.

End cards_appointments.

Section colours.
Import JS Cards.

(** X8.  The status badge: on either page two different known statuses have
    different colours; a status the page does not know gets the page's
    default colour, which on the appointments page is also the colour of
    "Cancelled". *)
Theorem status_colours_tell_statuses_apart :
  (∀ s s', s ∈ ["Completed"; "Repairing"; "Testing"] →
           s' ∈ ["Completed"; "Repairing"; "Testing"] →
           repairStatusColor s = repairStatusColor s' → s = s')
  ∧ (∀ s, s ∈ ["Completed"; "Repairing"; "Testing"] →
          repairStatusColor s ≠ "#666")
  ∧ (∀ s, s ∉ ["Completed"; "Repairing"; "Testing"] →
          repairStatusColor s = "#666")
  ∧ (∀ s s', s ∈ ["Scheduled"; "Accepted"; "Repairing"; "Testing";
                  "Completed"; "Rejected"; "Cancelled"] →
             s' ∈ ["Scheduled"; "Accepted"; "Repairing"; "Testing";
                   "Completed"; "Rejected"; "Cancelled"] →
             appointmentStatusColor s = appointmentStatusColor s' → s = s')
  ∧ (∀ s, s ∉ ["Scheduled"; "Accepted"; "Repairing"; "Testing";
               "Completed"; "Rejected"] →
          appointmentStatusColor s = appointmentStatusColor "Cancelled").
Proof.
  split; [|split; [|split; [|split]]].
  - intros s s' Hs Hs'.
    repeat (apply elem_of_cons in Hs as [->|Hs]);
      try (by apply elem_of_nil in Hs);
      repeat (apply elem_of_cons in Hs' as [->|Hs']);
      try (by apply elem_of_nil in Hs'); by vm_compute.
  - intros s Hs.
    repeat (apply elem_of_cons in Hs as [->|Hs]);
      try (by apply elem_of_nil in Hs); by vm_compute.
  - intros s Hs. rewrite !not_elem_of_cons in Hs.
    destruct Hs as (H1 & H2 & H3 & _).
    apply String.eqb_neq in H1, H2, H3.
    unfold repairStatusColor. by rewrite H1, H2, H3.
  - intros s s' Hs Hs'.
    repeat (apply elem_of_cons in Hs as [->|Hs]);
      try (by apply elem_of_nil in Hs);
      repeat (apply elem_of_cons in Hs' as [->|Hs']);
      try (by apply elem_of_nil in Hs'); by vm_compute.
  - intros s Hs. rewrite !not_elem_of_cons in Hs.
    destruct Hs as (H1 & H2 & H3 & H4 & H5 & H6 & _).
    apply String.eqb_neq in H1, H2, H3, H4, H5, H6.
    unfold appointmentStatusColor. rewrite H1, H2, H3, H4, H5, H6.
    by destruct (String.eqb s "Cancelled").
Qed.

End colours.

(** ** Opening hours *)

Section clock.
Import JS Terms Clock Expect.

Lemma split_colon_no_colon s :
  includes s ":" = false → split_colon s = [s].
Proof.
  induction s as [|c s IH]; [done|].
  rewrite includes_unfold. intros [Hp Hi]%orb_false_elim.
  cbn [split_colon].
  destruct (Ascii.eqb_spec c ":") as [->|Hne].
  - by destruct s.
  - by rewrite IH.
Qed.

Lemma split_colon_append a b :
  includes a ":" = false →
  split_colon (String.append a (String.append ":" b)) = a :: split_colon b.
Proof.
  induction a as [|c a IH]; [done|].
  rewrite includes_unfold. intros [Hp Hi]%orb_false_elim.
  rewrite append_cons. cbn [split_colon].
  destruct (Ascii.eqb_spec c ":") as [->|Hne].
  - by destruct a.
  - by rewrite IH.
Qed.

Lemma includes_colon_append a b :
  includes a ":" = false → includes b ":" = false →
  includes (String.append a b) ":" = false.
Proof.
  intros Ha Hb. induction a as [|c a IH]; [done|].
  rewrite includes_unfold in Ha. apply orb_false_elim in Ha as [Hp Hi].
  rewrite append_cons, includes_unfold. rewrite IH by done.
  rewrite orb_false_r.
  destruct (String.prefix ":" (String c (String.append a b))) eqn:E; [|done].
  apply prefix_append in E as (x & [= -> _]).
  rewrite <- Hp. symmetry. apply prefix_append. by exists a.
Qed.

Lemma append_inj_length a a' b b' :
  String.length a = String.length a' →
  String.append a b = String.append a' b' → a = a' ∧ b = b'.
Proof.
  revert a'. induction a as [|c a IH]; intros [|c' a'] Hl; try done.
  rewrite !append_cons. intros [= -> Heq].
  destruct (IH a') as [-> ->]; [by injection Hl|done|done].
Qed.

Lemma append_nonempty a c b : String.append a (String c b) ≠ "".
Proof. by destruct a. Qed.

(** Two digits: no colon, two characters, read back by [parseInt]. *)
Lemma two_digits_table :
  Forall (λ n, includes (two_digits n) ":" = false
               ∧ String.length (two_digits n) = 2%nat
               ∧ parseInt (two_digits n) = Some n) (seqZ 0 60).
Proof. apply (bool_decide_unpack _). by vm_compute. Qed.

Lemma show_table :
  Forall (λ n, includes (show n) ":" = false ∧ parseInt (show n) = Some n)
    (seqZ 1 12).
Proof. apply (bool_decide_unpack _). by vm_compute. Qed.

Lemma two_digits_ok n :
  (0 ≤ n < 60)%Z →
  includes (two_digits n) ":" = false
  ∧ String.length (two_digits n) = 2%nat
  ∧ parseInt (two_digits n) = Some n.
Proof.
  intros Hn. pose proof two_digits_table as Ht.
  rewrite Forall_forall in Ht. apply Ht, elem_of_seqZ. lia.
Qed.

Lemma hour12_range h : (0 ≤ h)%Z → (1 ≤ hour12 h ≤ 12)%Z.
Proof.
  intros Hh. unfold hour12. destruct (Z.eqb_spec (h mod 12) 0); [lia|].
  pose proof (Z.mod_pos_bound h 12). lia.
Qed.

Lemma show_ok h :
  (0 ≤ h)%Z →
  includes (show (hour12 h)) ":" = false
  ∧ parseInt (show (hour12 h)) = Some (hour12 h).
Proof.
  intros Hh. pose proof show_table as Ht.
  rewrite Forall_forall in Ht. apply Ht, elem_of_seqZ.
  pose proof (hour12_range h Hh). lia.
Qed.

Lemma formatTime_time24 h m :
  (0 ≤ h < 24)%Z → (0 ≤ m < 60)%Z →
  formatTime (VStr (time24 h m))
  = VStr (String.append (show (hour12 h))
            (String.append ":"
               (String.append (two_digits m)
                  (String.append " " (half h))))).
Proof.
  intros Hh Hm.
  destruct (two_digits_ok h) as (Hch & _ & Hph); [lia|].
  destruct (two_digits_ok m) as (Hcm & _ & _); [done|].
  unfold formatTime, time24.
  assert (truthy (VStr (String.append (two_digits h)
                          (String.append ":" (two_digits m)))) = true)
    as ->.
  { simpl. apply negb_true_iff, String.eqb_neq, append_nonempty. }
  cbn [negb]. cbv zeta.
  rewrite split_colon_append, split_colon_no_colon by done.
  change (default "" ([two_digits h; two_digits m] !! 0%nat))
    with (two_digits h).
  change (default "undefined" ([two_digits h; two_digits m] !! 1%nat))
    with (two_digits m).
  rewrite Hph.
  f_equal. f_equal; [f_equal|].
  - unfold hour12. rewrite Z.rem_mod_nonneg by lia. done.
  - unfold half. repeat f_equal.
    destruct (Z.leb_spec 12 h), (Z.ltb_spec h 12); done || lia.
Qed.

(** X9.  A stored time of day HH:MM is shown on the 12-hour clock: the hour
    between 1 and 12, the minutes as stored, AM before noon and PM from
    noon on. *)
Theorem formatTime_twelve_hour_clock (h m : Z) :
  (0 ≤ h < 24)%Z → (0 ≤ m < 60)%Z →
  formatTime (VStr (time24 h m))
  = VStr (String.append (show (hour12 h))
            (String.append ":"
               (String.append (two_digits m)
                  (String.append " " (half h)))))
  ∧ (1 ≤ hour12 h ≤ 12)%Z
  ∧ (half h = "AM" ↔ (h < 12)%Z).
Proof.
  intros Hh Hm. split; [|split].
  - by apply formatTime_time24.
  - apply hour12_range. lia.
  - unfold half. destruct (Z.ltb_spec h 12); split; done || lia.
Qed.

(** X10.  Two different times of day are never shown alike. *)
Theorem formatTime_distinguishes_times (h m h' m' : Z) :
  (0 ≤ h < 24)%Z → (0 ≤ m < 60)%Z → (0 ≤ h' < 24)%Z → (0 ≤ m' < 60)%Z →
  formatTime (VStr (time24 h m)) = formatTime (VStr (time24 h' m')) →
  h = h' ∧ m = m'.
Proof.
  intros Hh Hm Hh' Hm'.
  rewrite !formatTime_time24 by done. intros [= Heq].
  destruct (two_digits_ok m) as (Hcm & Hlm & Hpm); [done|].
  destruct (two_digits_ok m') as (Hcm' & Hlm' & Hpm'); [done|].
  destruct (show_ok h) as (Hcs & Hps); [lia|].
  destruct (show_ok h') as (Hcs' & Hps'); [lia|].
  assert (∀ x, includes (String.append " " (half x)) ":" = false) as Hhalf.
  { intros x. unfold half. by destruct (x <? 12)%Z. }
  apply (f_equal split_colon) in Heq.
  rewrite !split_colon_append in Heq by done.
  rewrite !split_colon_no_colon in Heq
    by (by apply includes_colon_append).
  injection Heq as Hshow Hrest.
  apply append_inj_length in Hrest as [Hmm Hhh]; [|congruence].
  assert (m = m') as <- by congruence.
  assert (hour12 h = hour12 h') as H12 by congruence.
  assert (half h = half h') as Hhalves by (by injection Hhh).
  split; [|done].
  unfold hour12, half in *.
  destruct (Z.ltb_spec h 12), (Z.ltb_spec h' 12); try done;
    destruct (Z.eqb_spec (h mod 12) 0), (Z.eqb_spec (h' mod 12) 0);
    rewrite ?(Z.mod_small h 12) in * by lia;
    rewrite ?(Z.mod_small h' 12) in * by lia;
    try lia;
    replace h with ((h - 12) + 1 * 12)%Z in * by lia;
    replace h' with ((h' - 12) + 1 * 12)%Z in * by lia;
    rewrite ?Z.mod_add in * by lia;
    rewrite ?(Z.mod_small (h - 12) 12) in * by lia;
    rewrite ?(Z.mod_small (h' - 12) 12) in * by lia; lia.
Qed.

End clock.

Section clock_edges.
Import JS Terms Clock Expect.

(** X11.  What [formatTime] does off the expected input.  A value that is
    missing or empty gives "Not set"; a value that is not a string comes
    back as it is; a string with no colon gets "undefined" for minutes;
    a string of ASCII text whose hour is not a number is shown as 12 AM. *)
Theorem formatTime_off_format :
  (∀ v, truthy v = false →
        formatTime v = VStr "Not set" ∧ shownTime v = VStr "Not set")
  ∧ (∀ v, truthy v = true → (∀ s, v ≠ VStr s) → formatTime v = v)
  ∧ (∀ s, s ≠ "" → includes s ":" = false →
          ∃ hh ampm,
            formatTime (VStr s)
            = VStr (String.append hh (String.append ":undefined " ampm)))
  ∧ (∀ s, s ≠ "" → ascii_only s = true →
          parseInt (default "" (split_colon s !! 0%nat)) = None →
          ∃ minutes,
            formatTime (VStr s)
            = VStr (String.append "12:" (String.append minutes " AM"))).
Proof.
  split; [|split; [|split]].
  - intros v Hv. unfold shownTime, formatTime. by rewrite Hv.
  - intros v Hv Hs. unfold formatTime. rewrite Hv. simpl.
    destruct v; try done. by destruct (Hs s).
  - intros s Hs Hc. unfold formatTime.
    assert (truthy (VStr s) = true) as -> by by destruct s.
    cbn [negb]. rewrite (split_colon_no_colon s Hc). cbn [lookup list_lookup default].
    by eexists _, _.
  - intros s Hs _ Hp. unfold formatTime.
    assert (truthy (VStr s) = true) as -> by by destruct s.
    cbn [negb]. rewrite Hp. by eexists.
Qed.

End clock_edges.

(** ** More on the resolver *)

Section resolver_more.
Import JS Terms Store.

Lemma returned_repairs a w r :
  returned (Repairs.fetchUserAndTechnicianDetails a w) = Some r →
  r = resolvedRepair (db w) a.
Proof.
  destruct (repairs_fetch_spec a w) as (w' & Hf & _).
  unfold returned. rewrite Hf. simpl. by intros [= <-].
Qed.

Lemma returned_appointments a w r :
  returned (Appointments.fetchUserAndTechnicianDetails a w) = Some r →
  r = resolvedAppointment (db w) a.
Proof.
  destruct (appointments_fetch_spec a w) as (w' & Hf & _).
  unfold returned. rewrite Hf. simpl. by intros [= <-].
Qed.

Lemma displayInfo_usable i : usable (Appointments.displayInfo i).
Proof.
  unfold usable, Appointments.displayInfo. simpl.
  rewrite !Is_true_true. repeat split; by apply or_lit_truthy.
Qed.

(** X12.  A snapshot written by either resolver has a name, an e-mail address
    and a phone number, none of them empty. *)
Theorem resolved_snapshots_are_complete
    (a : Appointment) (w : World) (r r' : Appointment) :
  returned (Repairs.fetchUserAndTechnicianDetails a w) = Some r →
  returned (Appointments.fetchUserAndTechnicianDetails a w) = Some r' →
  (∀ i, userInfo r = Some i ∨ technicianInfo r = Some i
        ∨ userInfo r' = Some i ∨ technicianInfo r' = Some i → usable i)
  ∧ (∀ d, userDetails r = Some d ∨ technicianDetails r = Some d →
          str_truthy (name d) ∧ str_truthy (phone d)).
Proof.
  intros ->%returned_repairs ->%returned_appointments.
  unfold resolvedRepair, resolvedAppointment, Repairs.merged,
    Appointments.merged, spread2, spread4. simpl. split.
  - intros i [Hi|[Hi|[Hi|Hi]]].
    + destruct (_ || _); [|done]. injection Hi as <-.
      unfold usable. simpl. rewrite !Is_true_true.
      repeat split; by apply or_lit_truthy.
    + destruct (_ || _); [|done]. injection Hi as <-.
      unfold usable. simpl. rewrite !Is_true_true.
      repeat split; by apply or_lit_truthy.
    + apply fmap_Some in Hi as (x & _ & ->). apply displayInfo_usable.
    + apply fmap_Some in Hi as (x & _ & ->). apply displayInfo_usable.
  - intros d [Hd|Hd]; (destruct (_ || _); [|done]); injection Hd as <-;
      simpl; rewrite !Is_true_true; split; by apply or_lit_truthy.
Qed.

(** X13.  On the repairs page the two snapshots of an entity agree: the legacy
    [userInfo] and the newer [userDetails] carry the same name, e-mail
    address and phone number, and so do [technicianInfo] and
    [technicianDetails] for name and phone. *)
Theorem repairs_snapshots_agree
    (a : Appointment) (w : World) (r : Appointment) :
  returned (Repairs.fetchUserAndTechnicianDetails a w) = Some r →
  (∀ i d, userInfo r = Some i → userDetails r = Some d →
          username i = name d ∧ email i = email d ∧ phone i = phone d)
  ∧ (∀ i d, technicianInfo r = Some i → technicianDetails r = Some d →
            username i = name d ∧ phone i = phone d).
Proof.
  intros ->%returned_repairs.
  unfold resolvedRepair, Repairs.merged, spread4. simpl. split.
  - intros i d Hi Hd.
    destruct (_ || _); [|done]. destruct (_ || _); [|done].
    by injection Hi as <-; injection Hd as <-.
  - intros i d Hi Hd.
    destruct (_ || _); [|done]. destruct (_ || _); [|done].
    by injection Hi as <-; injection Hd as <-.
Qed.

(** X14.  Resolution changes nothing but the display snapshots. *)
Theorem resolution_keeps_record_data
    (a : Appointment) (w : World) (r r' : Appointment) :
  returned (Repairs.fetchUserAndTechnicianDetails a w) = Some r →
  returned (Appointments.fetchUserAndTechnicianDetails a w) = Some r' →
  (id r = id a ∧ userId r = userId a ∧ technicianId r = technicianId a
   ∧ deviceType r = deviceType a ∧ issue r = issue a
   ∧ status_global r = status_global a
   ∧ diagnosisData r = diagnosisData a ∧ extra r = extra a)
  ∧ (id r' = id a ∧ userId r' = userId a ∧ technicianId r' = technicianId a
     ∧ deviceType r' = deviceType a ∧ issue r' = issue a
     ∧ status_global r' = status_global a
     ∧ diagnosisData r' = diagnosisData a ∧ extra r' = extra a
     ∧ userDetails r' = userDetails a
     ∧ technicianDetails r' = technicianDetails a).
Proof. by intros ->%returned_repairs ->%returned_appointments. Qed.

Lemma displayInfo_keeps i :
  usable i →
  username (Appointments.displayInfo i) = username i
  ∧ email (Appointments.displayInfo i) = email i
  ∧ phone (Appointments.displayInfo i) = phone i.
Proof.
  intros (Hu & He & Hp). apply Is_true_true in Hu, He, Hp.
  unfold Appointments.displayInfo, or_str. simpl. rewrite Hu.
  by rewrite !or_lit_usable.
Qed.

(** X16.  On the appointments page a snapshot that the record embeds, with name,
    e-mail address and phone number, keeps these three fields through
    resolution, and resolving a resolved record against the same store
    returns it unchanged. *)
Theorem appointments_resolution_is_idempotent
    (a : Appointment) (w : World) (r : Appointment) :
  returned (Appointments.fetchUserAndTechnicianDetails a w) = Some r →
  (∀ w2, db w2 = db w →
         returned (Appointments.fetchUserAndTechnicianDetails r w2) = Some r)
  ∧ (∀ i, userInfo a = Some i → usable i →
          opt_field username (userInfo r) = username i
          ∧ opt_field email (userInfo r) = email i
          ∧ opt_field phone (userInfo r) = phone i)
  ∧ (∀ i, technicianInfo a = Some i → usable i →
          opt_field username (technicianInfo r) = username i
          ∧ opt_field email (technicianInfo r) = email i
          ∧ opt_field phone (technicianInfo r) = phone i).
Proof.
  intros Hr. split; [|split].
  - by apply (appointments_resolver_respects_embedded a w r).
  - by apply (appointments_resolver_respects_embedded a w r).
  - apply returned_appointments in Hr as ->.
    intros i Hi Hus. unfold resolvedAppointment, Appointments.merged, spread2,
      spread4. simpl. rewrite Hi. simpl.
    by apply displayInfo_keeps.
Qed.







End resolver_more.

(** ** Loading and error states *)

Section loading.
Import JS Terms Store Waiting.

Lemma repairs_step_loading e p :
  Repairs.loading (Repairs.view p) = false →
  Repairs.loading (Repairs.view (Repairs.step e p)) = false.
Proof.
  intros Hl. destruct e as [S1|k| | |]; simpl; try done.
  - destruct (length S1 =? 0)%nat; [done|].
    by destruct (all _ _ _) as [[?|?] ?].
  - by destruct (Repairs.passes p !! k).
Qed.

Lemma appointments_step_loading e p :
  Appointments.loading (Appointments.view p) = false →
  Appointments.loading (Appointments.view (Appointments.step e p)) = false.
Proof.
  intros Hl. destruct e as [S1|k| | |]; simpl; try done.
  - by destruct (all _ _ _) as [[?|?] ?].
  - by destruct (Appointments.passes p !! k).
Qed.

Lemma freelance_step_loading e p :
  Freelance.loading p = false →
  Freelance.loading (Freelance.step e p) = false.
Proof.
  intros Hl. destruct e; simpl; try done.
  - destruct (Freelance.selected p), (Freelance.gate p); try done.
    by destruct (negb _).
  - destruct (Freelance.gate p); [|done]. simpl.
    by destruct (Freelance.prop _ _).
  - by destruct (Freelance.inflight p !! k) as [[??]|].
  - by destruct (Freelance.inflight p !! k).
Qed.

(** X17.  Once a page has stopped showing the spinner, nothing brings the
    spinner back. *)
Theorem spinner_never_returns :
  (∀ es p, Repairs.loading (Repairs.view p) = false →
           shows_spinner
             (Repairs.render (Repairs.view (Repairs.run es p))) = false)
  ∧ (∀ es p, Appointments.loading (Appointments.view p) = false →
             shows_spinner
               (Appointments.render
                  (Appointments.view (Appointments.run es p))) = false)
  ∧ (∀ es p, Freelance.loading p = false →
             shows_spinner (Freelance.render (Freelance.run es p)) = false).
Proof.
  split; [|split].
  - intros es p Hp.
    assert (Repairs.loading (Repairs.view (Repairs.run es p)) = false) as Hl.
    { revert p Hp. induction es as [|e es IH]; intros p Hp; [done|].
      apply (IH (Repairs.step e p)). by apply repairs_step_loading. }
    unfold Repairs.render. rewrite Hl.
    by destruct (length _ =? 0)%nat.
  - intros es p Hp.
    assert (Appointments.loading
              (Appointments.view (Appointments.run es p)) = false) as Hl.
    { revert p Hp. induction es as [|e es IH]; intros p Hp; [done|].
      apply (IH (Appointments.step e p)). by apply appointments_step_loading. }
    unfold Appointments.render. rewrite Hl.
    destruct (str_truthy _); [done|]. by destruct (length _ =? 0)%nat.
  - intros es p Hp.
    assert (Freelance.loading (Freelance.run es p) = false) as Hl.
    { revert p Hp. induction es as [|e es IH]; intros p Hp; [done|].
      apply (IH (Freelance.step e p)). by apply freelance_step_loading. }
    unfold Freelance.render. rewrite Hl.
    by destruct (length _ =? 0)%nat.
Qed.

(** X18.  Until the first resolution pass resumes, the repairs and appointments
    pages show the spinner and hold no record, however many snapshots are
    delivered meanwhile. *)
Theorem spinner_until_first_result (d : Db) :
  (∀ es, Forall (λ e, repairs_pending e) es →
         let p := Repairs.run es (Repairs.initial d) in
         Repairs.render (Repairs.view p) = Spinner
         ∧ Repairs.repairs (Repairs.view p) = [])
  ∧ (∀ es, Forall (λ e, appointments_pending e) es →
           let p := Appointments.run es (Appointments.initial d) in
           Appointments.render (Appointments.view p) = Spinner
           ∧ Appointments.appointments (Appointments.view p) = []).
Proof.
  split.
  - intros es Hes.
    assert (∀ p, Repairs.loading (Repairs.view p) = true →
                 Repairs.repairs (Repairs.view p) = [] →
                 Repairs.loading (Repairs.view (Repairs.run es p)) = true
                 ∧ Repairs.repairs (Repairs.view (Repairs.run es p)) = [])
      as Hinv.
    { induction Hes as [|e es He _ IH]; intros p Hl Hr; [done|].
      destruct e as [S1|k| | |]; try done.
      - assert (S1 ≠ []) as Hne by (by destruct S1).
        destruct (repairs_step_snapshot S1 p Hne) as (w & Hs & _).
        apply (IH (Repairs.step (Repairs.Snapshot S1) p)); by rewrite Hs.
      - by apply (IH (Repairs.step (Repairs.Search term) p)).
      - by apply (IH (Repairs.step (Repairs.Filter status) p)). }
    destruct (Hinv (Repairs.initial d)) as [Hl Hr]; [done..|].
    simpl. unfold Repairs.render. by rewrite Hl.
  - intros es Hes.
    assert (∀ p, Appointments.loading (Appointments.view p) = true →
                 Appointments.appointments (Appointments.view p) = [] →
                 Appointments.loading
                   (Appointments.view (Appointments.run es p)) = true
                 ∧ Appointments.appointments
                     (Appointments.view (Appointments.run es p)) = [])
      as Hinv.
    { induction Hes as [|e es He _ IH]; intros p Hl Hr; [done|].
      destruct e as [S1|k| | |]; try done.
      - destruct (appointments_step_snapshot S1 p) as (w & Hs & _).
        apply (IH (Appointments.step (Appointments.Snapshot S1) p));
          by rewrite Hs.
      - by apply (IH (Appointments.step (Appointments.Search term) p)).
      - by apply (IH (Appointments.step (Appointments.Filter status) p)). }
    destruct (Hinv (Appointments.initial d)) as [Hl Hr]; [done..|].
    simpl. unfold Appointments.render. by rewrite Hl.
Qed.

(** X19.  After a subscription error the appointments page shows the error, and
    keeps showing it whatever happens, until the next snapshot is
    delivered; that delivery clears the error at once, before its
    resolution pass has resumed. *)
Theorem appointments_error_lasts_until_delivery :
  (∀ es p, Forall (λ e, no_delivery e) es →
     Appointments.render
       (Appointments.view
          (Appointments.run (Appointments.SnapshotError :: es) p))
     = ErrorState "Failed to connect to database" true)
  ∧ (∀ S1 p,
       Appointments.error
         (Appointments.view (Appointments.step (Appointments.Snapshot S1) p))
       = None).
Proof.
  split.
  - intros es p Hes.
    assert (∀ q, Appointments.loading (Appointments.view q) = false →
                 Appointments.error (Appointments.view q)
                 = Some "Failed to connect to database" →
                 Appointments.loading
                   (Appointments.view (Appointments.run es q)) = false
                 ∧ Appointments.error
                     (Appointments.view (Appointments.run es q))
                   = Some "Failed to connect to database") as Hinv.
    { induction Hes as [|e es He _ IH]; intros q Hl Hr; [done|].
      apply (IH (Appointments.step e q));
        destruct e as [S1|k| | |]; simpl in *; try done;
        by destruct (Appointments.passes q !! k). }
    destruct (Hinv (Appointments.step Appointments.SnapshotError p))
      as [Hl He]; [done..|].
    change (Appointments.run (Appointments.SnapshotError :: es) p)
      with (Appointments.run es
              (Appointments.step Appointments.SnapshotError p)).
    unfold Appointments.render. by rewrite Hl, He.
  - intros S1 p.
    by destruct (appointments_step_snapshot S1 p) as (w & -> & _).
Qed.

End loading.

(** ** More on the soft delete *)

Section freelance_more.
Import JS Terms Freelance Audit.

Lemma run_cons e es p : run (e :: es) p = run es (step e p).
Proof. done. Qed.

Lemma step_writes e p :
  (length (writes (step e p)) ≤ length (writes p) + (if is_confirm e then 1 else 0)%nat)%nat.
Proof.
  destruct e; simpl; try lia.
  - destruct (selected p), (gate p); try lia. destruct (negb _); simpl; lia.
  - destruct (gate p); [|lia]. simpl.
    destruct (prop _ _); simpl; rewrite ?length_app; simpl; lia.
  - destruct (inflight p !! k) as [[??]|]; simpl; lia.
  - destruct (inflight p !! k); simpl; lia.
Qed.

(** X20.  The page issues at most one write for each confirmation the user
    gives. *)
Theorem one_write_per_confirmation (es : list event) (p : Page) :
  (length (writes (run es p)) ≤ length (writes p) + confirmations es)%nat.
Proof.
  revert p. induction es as [|e es IH]; intros p; [simpl; lia|].
  rewrite run_cons. specialize (IH (step e p)).
  pose proof (step_writes e p) as Hs.
  unfold confirmations in *. rewrite filter_cons.
  destruct (is_confirm e); simpl in *; lia.
Qed.

Lemma step_soft_deletes_only e p :
  soft_deletes_only p → soft_deletes_only (step e p).
Proof.
  intros Hp. destruct e; simpl; try done.
  - destruct (selected p), (gate p); try done. by destruct (negb _).
  - destruct (gate p); [|done]. simpl.
    destruct (prop _ _); try done.
    intros k uid fields. simpl. rewrite lookup_insert. case_decide.
    + intros [= <- <-]. by exists now.
    + apply Hp.
  - destruct (inflight p !! k) as [[??]|] eqn:Hk; [|done].
    intros k' uid fields. simpl. rewrite lookup_delete_Some.
    intros [_ ?]. by eapply Hp.
  - destruct (inflight p !! k) eqn:Hk; [|done].
    intros k' uid fields. simpl. rewrite lookup_delete_Some.
    intros [_ ?]. by eapply Hp.
Qed.

Lemma no_inflight_soft_deletes_only p :
  inflight p = ∅ → soft_deletes_only p.
Proof. intros Hp k uid fields. by rewrite Hp, lookup_empty. Qed.

Lemma step_frame e p u k :
  soft_deletes_only p → untouched k →
  default ∅ (store (step e p) !! u) !! k = default ∅ (store p !! u) !! k.
Proof.
  intros Hp (H1 & H2 & H3). destruct e; simpl; try done.
  - destruct (selected p), (gate p); try done. by destruct (negb _).
  - destruct (gate p); [|done]. simpl. by destruct (prop _ _).
  - destruct (inflight p !! k0) as [[uid fields]|] eqn:Hk; [|done]. simpl.
    destruct (Hp _ _ _ Hk) as (now & ->).
    unfold mergeWrite. rewrite lookup_insert. case_decide; [|done].
    subst u. simpl. rewrite lookup_union_r; [done|].
    by apply softDelete_lookup.
  - by destruct (inflight p !! k0).
Qed.

(** X21.  Whatever the user and the store do, the page changes no field of any
    technician document other than isDeleted, deletedAt and deletedBy. *)
Theorem page_touches_only_delete_fields
    (es : list event) (p : Page) (u k : string) :
  soft_deletes_only p → untouched k →
  default ∅ (store (run es p) !! u) !! k = default ∅ (store p !! u) !! k.
Proof.
  revert p. induction es as [|e es IH]; intros p Hp Hk; [done|].
  rewrite run_cons, IH; [|by apply step_soft_deletes_only|done].
  by apply step_frame.
Qed.

(** X22.  A technician whose soft delete was committed is in no list built from
    a later snapshot of the collection. *)
Theorem soft_deleted_is_not_listed
    (st : gmap string Technician) (uid now : string)
    (docs : list (string * Technician)) (d : Technician) :
  mergeWrite uid (softDelete now) st !! uid = Some d →
  (toRecord (uid, d) ∉ freelanceTechs (toRecord <$> docs))
  ∧ isFreelance (toRecord (uid, d)) = false.
Proof.
  intros Hd.
  assert (isFreelance (toRecord (uid, d)) = false) as Hf.
  { unfold mergeWrite in Hd. rewrite lookup_insert_eq in Hd.
    injection Hd as <-.
    unfold isFreelance, prop, toRecord. simpl.
    assert ((softDelete now ∪ default ∅ (st !! uid)
              ∪ {["uid" := VStr uid]}) !! "isDeleted"
            = Some (VBool true)) as ->; [|done].
    apply lookup_union_Some_l, lookup_union_Some_l.
    by apply softDelete_lookup. }
  split; [|done].
  unfold freelanceTechs. rewrite list_elem_of_filter. intros [Hk _].
  by rewrite Hf in Hk.
Qed.

End freelance_more.

Section delete_target.
Import JS Terms Freelance Audit.

(** X23.  The soft delete of a listed technician goes to the document named by
    the record's [uid], when that is a document id: the document the
    record was read from, unless the stored data carries a [uid] field of
    its own, which then names the document that is written. *)
Theorem delete_targets_record_uid
    (p : Page) (i target now : string) (data : Technician) :
  gate p = None → target ≠ "" → document_id target = true →
  default (VStr i) (data !! "uid") = VStr target →
  store (run [Select (toRecord (i, data)); ClickDelete; Confirm now;
              WriteOk (S (length (writes p)))] p)
  = mergeWrite target (softDelete now) (store p).
Proof.
  intros Hg Hne _ Huid.
  rewrite run_cons.
  change (length (writes p))
    with (length (writes (step (Select (toRecord (i, data))) p))).
  rewrite (delete_confirmed_run _ (toRecord (i, data)) target now);
    try done.
  by rewrite toRecord_uid, Huid.
Qed.

End delete_target.

(** ** The diagnosis modal *)

Section diagnosis_modal.
Import JS DiagnosisModal Expect.

Lemma render_settle o m :
  showDiagnosisModal m = true → diagnosisError m = None →
  render (settle o m)
  = match o with
    | Found data => Grid (fromDoc data)
    | Missing => DiagnosisError "Diagnosis not found."
    | Failed => DiagnosisError "Failed to load diagnosis."
    end.
Proof.
  intros Hs He. destruct o; unfold render; simpl; rewrite Hs; simpl; [|done..].
  by rewrite He.
Qed.


(** X25.  A fetch that resumes late overrides what was opened after it: with
    the diagnosis of a first appointment still being fetched, the user
    closes the modal and opens a second appointment that embeds its
    diagnosis; when the first fetch resumes, the modal shows the first
    appointment's diagnosis, or its error, in place of the second's. *)
Theorem late_diagnosis_fetch_overrides
    (d : Diagnoses) (m : Modal) (i : string) (second : Data) :
  fetching m = ∅ → i ≠ "" →
  render (run d [Click None (Some i); Close; Click (Some second) None] m)
  = Grid second
  ∧ render (run d [Click None (Some i); Close; Click (Some second) None;
                   Resumed (S (clicks m))] m)
    = shown d None (Some i).
Proof.
  intros Hf Hi.
  assert (str_truthy (Some i) = true) as Htr by by destruct i.
  unfold run, shown. cbn [foldl]. rewrite Htr.
  unfold step at 3 6 7. rewrite Htr. cbn [default].
  split; [done|].
  simpl. rewrite lookup_insert_eq. by destruct (getDoc d i).
Qed.

(** X26.  No text row of the grid is blank.  For a fetched document that has
    none of the fields a row is built from, the row reads "N/A"; for one
    that has a model but no brand, the Brand/Model row shows the model
    twice. *)
Theorem diagnosis_rows (data : Data) (doc : Doc) :
  Forall (λ s, s ≠ "")
    [categoryRow data; brandModelRow data; issueRow data; diagnosisRow data]
  ∧ (str_truthy (doc_category doc) = false →
     str_truthy (doc_deviceType doc) = false →
     categoryRow (fromDoc doc) = "N/A")
  ∧ (str_truthy (doc_brand doc) = false →
     str_truthy (doc_model doc) = false →
     brandModelRow (fromDoc doc) = "N/A")
  ∧ (∀ mo, str_truthy (doc_brand doc) = false → mo ≠ "" →
           doc_model doc = Some mo →
           brandModelRow (fromDoc doc)
           = String.append mo (String.append " " mo)).
Proof.
  split; [|split; [|split]].
  - repeat constructor; by apply or_lit_nonempty.
  - intros Hc Hd. unfold categoryRow, fromDoc, or_str. simpl.
    rewrite Hc. by destruct (doc_deviceType doc) as [[|??]|].
  - intros Hb Hm. unfold brandModelRow, fromDoc, or_str. simpl.
    rewrite Hb, Hm. by destruct (doc_model doc) as [[|??]|].
  - intros mo Hb Hne Hm. unfold brandModelRow, fromDoc, or_str. simpl.
    rewrite Hb, Hm. destruct mo as [|c mo]; [done|]. simpl. done.
Qed.

End diagnosis_modal.

(** ** Instances *)

Section instances.
Import JS Terms.

Lemma longer_term_narrows_search_witness :
  Repairs.filter_by [Cases.diagnosed; Samples.bare] "iphone" "all"
    `sublist_of` Repairs.filter_by [Cases.diagnosed; Samples.bare] "iph" "all".
Proof.
  apply (longer_term_narrows_search [Cases.diagnosed; Samples.bare]
           "iphone" "iph" "all").
  - reflexivity.
  - repeat constructor.
  - reflexivity.
Defined.

Lemma status_filter_narrows_all_witness :
  Repairs.filter_by [Cases.diagnosed; Samples.raw] "" "Testing"
    `sublist_of` Repairs.filter_by [Cases.diagnosed; Samples.raw] "" "all".
Proof.
  apply (status_filter_narrows_all [Cases.diagnosed; Samples.raw] "" "Testing").
  discriminate.
Defined.

Lemma repairs_status_options_partition_witness :
  Repairs.filter_by [Cases.diagnosed; Samples.raw; Samples.embedded] "" "all"
  ≡ₚ Repairs.filter_by [Cases.diagnosed; Samples.raw; Samples.embedded]
       "" "Completed"
     ++ Repairs.filter_by [Cases.diagnosed; Samples.raw; Samples.embedded]
          "" "Repairing"
     ++ Repairs.filter_by [Cases.diagnosed; Samples.raw; Samples.embedded]
          "" "Testing".
Proof.
  apply (repairs_status_options_partition
           [Cases.diagnosed; Samples.raw; Samples.embedded] "").
  repeat apply Forall_cons_2; try apply Forall_nil; unfold Notions.queried;
    simpl; auto.
Defined.

Lemma repairs_card_text_is_searchable_witness :
  Cases.diagnosed
  ∈ Repairs.filter_by [Cases.diagnosed] (Cards.repairIssue Cases.diagnosed)
      "all".
Proof.
  apply (repairs_card_text_is_searchable Cases.diagnosed). discriminate.
Defined.

Lemma appointments_card_text_is_searchable_witness :
  Samples.raw
  ∈ Appointments.filter_by [Samples.raw] (Cards.appointmentDevice Samples.raw)
      "all".
Proof.
  apply (appointments_card_text_is_searchable Samples.raw). discriminate.
Defined.

Lemma status_colours_tell_statuses_apart_witness :
  Cards.repairStatusColor "Shipped" = "#666"
  ∧ Cards.repairStatusColor "Testing" ≠ "#666".
Proof.
  destruct status_colours_tell_statuses_apart as (_ & Hknown & Hother & _).
  split.
  - apply Hother. rewrite !not_elem_of_cons.
    repeat split; try discriminate. apply not_elem_of_nil.
  - apply Hknown. do 2 right. left.
Defined.

Lemma formatTime_twelve_hour_clock_witness :
  Clock.formatTime (VStr (Clock.time24 17 5)) = VStr "5:05 PM".
Proof.
  apply (formatTime_twelve_hour_clock 17 5); lia.
Defined.

Lemma formatTime_distinguishes_times_witness : (0 = 0 ∧ 30 = 30)%Z.
Proof.
  apply (formatTime_distinguishes_times 0 30 0 30); [lia..|reflexivity].
Defined.

Lemma formatTime_off_format_witness :
  Clock.formatTime VUndef = VStr "Not set"
  ∧ Clock.formatTime (VNum 900) = VNum 900
  ∧ (∃ hh ampm, Clock.formatTime (VStr "9")
                = VStr (String.append hh (String.append ":undefined " ampm)))
  ∧ (∃ minutes, Clock.formatTime (VStr "noon:15")
                = VStr (String.append "12:" (String.append minutes " AM"))).
Proof.
  destruct formatTime_off_format as (Hfalsy & Hother & Hcolon & Hnan).
  split; [|split; [|split]].
  - by apply Hfalsy.
  - by apply Hother.
  - by apply Hcolon.
  - by apply Hnan.
Defined.

Lemma resolved_snapshots_are_complete_witness :
  usable (mkPerson (Some "Bob Cruz") None None (Some "N/A") (Some "0918")
            None None None None None).
Proof.
  apply (resolved_snapshots_are_complete Samples.raw
           (Store.fresh Samples.db1)
           (resolvedRepair Samples.db1 Samples.raw)
           (resolvedAppointment Samples.db1 Samples.raw));
    [by vm_compute | by vm_compute |].
  right. left. by vm_compute.
Defined.

Lemma repairs_snapshots_agree_witness :
  Some "alice" = Some "alice"
  ∧ Some "alice@example.org" = Some "alice@example.org"
  ∧ Some "0917" = Some "0917".
Proof.
  destruct (repairs_snapshots_agree Samples.raw (Store.fresh Samples.db1)
              (resolvedRepair Samples.db1 Samples.raw)) as [Hu _];
    [by vm_compute|].
  apply (Hu (mkPerson (Some "alice") None None (Some "alice@example.org")
               (Some "0917") None None None None None)
            (mkPerson None (Some "alice") None (Some "alice@example.org")
               (Some "0917") None None None None None));
    by vm_compute.
Defined.

Lemma resolution_keeps_record_data_witness :
  deviceType (resolvedRepair Samples.db1 Samples.raw) = Some "Laptop".
Proof.
  destruct (resolution_keeps_record_data Samples.raw
              (Store.fresh Samples.db1)
              (resolvedRepair Samples.db1 Samples.raw)
              (resolvedAppointment Samples.db1 Samples.raw))
    as ((_ & _ & _ & Hd & _) & _); [by vm_compute..|].
  exact Hd.
Defined.


Lemma appointments_resolution_is_idempotent_witness :
  returned (Appointments.fetchUserAndTechnicianDetails
              (resolvedAppointment Samples.db1 Samples.embedded)
              (Store.fresh Samples.db1))
  = Some (resolvedAppointment Samples.db1 Samples.embedded).
Proof.
  apply (appointments_resolution_is_idempotent Samples.embedded
           (Store.fresh Samples.db1));
    [by vm_compute | reflexivity].
Defined.

Lemma spinner_never_returns_witness :
  shows_spinner
    (Repairs.render
       (Repairs.view
          (Repairs.run [Repairs.Snapshot [Samples.raw]; Repairs.Search "x"]
             (Repairs.step Repairs.SnapshotError
                (Repairs.initial Samples.db1))))) = false.
Proof.
  apply (proj1 spinner_never_returns). reflexivity.
Defined.

Lemma spinner_until_first_result_witness :
  Repairs.render
    (Repairs.view
       (Repairs.run [Repairs.Snapshot [Samples.raw]; Repairs.Search "x";
                     Repairs.Snapshot [Samples.orphan]]
          (Repairs.initial Samples.db1)))
  = Spinner.
Proof.
  apply (proj1 (spinner_until_first_result Samples.db1)).
  repeat constructor.
Defined.

Lemma appointments_error_lasts_until_delivery_witness :
  Appointments.render
    (Appointments.view
       (Appointments.run
          [Appointments.SnapshotError; Appointments.Settled 1;
           Appointments.Search "x"]
          (Appointments.step (Appointments.Snapshot [Samples.raw])
             (Appointments.initial Samples.db1))))
  = ErrorState "Failed to connect to database" true.
Proof.
  apply (proj1 appointments_error_lasts_until_delivery).
  repeat constructor.
Defined.

Lemma page_touches_only_delete_fields_witness :
  default ∅
    (Freelance.store
       (Freelance.run
          [Freelance.ClickDelete; Freelance.Confirm Samples.noon;
           Freelance.WriteOk 1] Samples.page0) !! "t1") !! "username"
  = default ∅ (Freelance.store Samples.page0 !! "t1") !! "username".
Proof.
  apply (page_touches_only_delete_fields
           [Freelance.ClickDelete; Freelance.Confirm Samples.noon;
            Freelance.WriteOk 1] Samples.page0 "t1" "username").
  - apply no_inflight_soft_deletes_only. reflexivity.
  - by repeat split.
Defined.

Lemma soft_deleted_is_not_listed_witness :
  Freelance.isFreelance
    (Freelance.toRecord
       ("t1", Freelance.softDelete Samples.noon ∪ snd Samples.tech1))
  = false.
Proof.
  apply (soft_deleted_is_not_listed Samples.store0 "t1" Samples.noon
           [Samples.tech1]).
  by vm_compute.
Defined.

Lemma delete_targets_record_uid_witness :
  Freelance.store
    (Freelance.run
       [Freelance.Select (Freelance.toRecord Samples.tech1);
        Freelance.ClickDelete; Freelance.Confirm Samples.noon;
        Freelance.WriteOk
          (S (length (Freelance.writes
                        (Freelance.initial Samples.store0))))]
       (Freelance.initial Samples.store0))
  = Freelance.mergeWrite "t1" (Freelance.softDelete Samples.noon)
      Samples.store0.
Proof.
  apply (delete_targets_record_uid (Freelance.initial Samples.store0)
           "t1" "t1" Samples.noon (snd Samples.tech1));
    [reflexivity | discriminate | reflexivity | by vm_compute].
Defined.


Lemma late_diagnosis_fetch_overrides_witness :
  DiagnosisModal.render
    (DiagnosisModal.run Cases.diagnoses1
       [DiagnosisModal.Click None (Some "d404"); DiagnosisModal.Close;
        DiagnosisModal.Click (Some Cases.embeddedDiagnosis) None;
        DiagnosisModal.Resumed 1] DiagnosisModal.closed)
  = DiagnosisModal.DiagnosisError "Diagnosis not found.".
Proof.
  apply (late_diagnosis_fetch_overrides Cases.diagnoses1
           DiagnosisModal.closed "d404" Cases.embeddedDiagnosis);
    [reflexivity | discriminate].
Defined.

Lemma diagnosis_rows_witness :
  DiagnosisModal.brandModelRow
    (DiagnosisModal.fromDoc
       (DiagnosisModal.mkDoc None (Some "Laptop") None (Some "X200")
          None (Some "No power") None (Some "Dead battery")
          (Some 1500%Z) None))
  = "X200 X200".
Proof.
  destruct (diagnosis_rows Cases.embeddedDiagnosis
              (DiagnosisModal.mkDoc None (Some "Laptop") None (Some "X200")
                 None (Some "No power") None (Some "Dead battery")
                 (Some 1500%Z) None)) as (_ & _ & _ & Htwice).
  apply (Htwice "X200"); [reflexivity | discriminate | reflexivity].
Defined.

End instances.
